(** * golf_2d_pose_extraction_imgs.py: the swing-phase sorter and the
      batch driver's skip logic

    A shallow embedding of [sort_golf_swing_images] and of the image loop
    of [extract_pose_from_imgs].

    - File names are [string]s whose characters are read as code points
      below 256.  In that range the only characters [\d] accepts are
      ['0'..'9'], and [.] accepts everything except the line feed.
    - A path is the list of its components below a common root, so
      [os.path.join(d, name)] is [d ++ [name]] (names returned by
      [os.listdir] and the category names contain no separator).
    - The file system is an association list from paths to nodes, in the
      order in which [os.listdir] reports the entries; the first entry of
      a path is the one that counts.
    - Effects (file system, standard output, exceptions) are threaded by a
      small state-and-exception monad: an exception keeps the state
      reached so far, as in Python. *)

From Stdlib Require Import List String Ascii ZArith NArith Arith Bool Lia.
From Stdlib Require Import Permutation Sorted DecimalString.
Import ListNotations.

Local Open Scope string_scope.
Local Open Scope list_scope.

(** ** Strings *)

(** [s.endswith(suffix)] *)
Fixpoint endswith (s suffix : string) : bool :=
  if String.eqb s suffix then true
  else match s with
       | EmptyString => false
       | String _ s' => endswith s' suffix
       end.

(** [s.startswith(p)] *)
Fixpoint startswith (p s : string) : bool :=
  match p with
  | EmptyString => true
  | String a p' =>
      match s with
      | EmptyString => false
      | String b s' => Ascii.eqb a b && startswith p' s'
      end
  end.

(** [\d] on code points below 256 *)
Definition is_digit (c : ascii) : bool :=
  ((48 <=? N_of_ascii c) && (N_of_ascii c <=? 57))%N.

(** [.] without DOTALL: any character but the line feed *)
Definition is_dot (c : ascii) : bool :=
  negb (N_of_ascii c =? 10)%N.

(** [int(number)] for a string of decimal digits *)
Fixpoint int_acc (acc : Z) (s : string) : Z :=
  match s with
  | EmptyString => acc
  | String c s' => int_acc (10 * acc + (Z.of_N (N_of_ascii c) - 48)) s'
  end.

Definition int (number : string) : Z := int_acc 0 number.

(** [str(n)] for a natural number, as an f-string prints it *)
Definition str (n : nat) : string := NilEmpty.string_of_uint (Nat.to_uint n).

(** ** The file-name pattern

    [re.match(r'(.+?)_(\d{4})\.jpg_vis_results\.jpg', file)] *)

Definition pattern_tail : string := ".jpg_vis_results.jpg".

(** What follows the first group: [_(\d{4})\.jpg_vis_results\.jpg],
    tried at the head of [s]; the result is the text of the second group. *)
Definition match_after_prefix (s : string) : option string :=
  match s with
  | String "_" (String d1 (String d2 (String d3 (String d4 rest)))) =>
      if is_digit d1 && is_digit d2 && is_digit d3 && is_digit d4
         && startswith pattern_tail rest
      then Some (String d1 (String d2 (String d3 (String d4 EmptyString))))
      else None
  | _ => None
  end.

(** [re.match] anchors at the start of the name only.  The lazy [(.+?)]
    takes one character, tries the rest of the pattern, and on failure
    takes one more character; it cannot step over a line feed. *)
Fixpoint re_match (file : string) : option (string * string) :=
  match file with
  | EmptyString => None
  | String c rest =>
      if is_dot c then
        match match_after_prefix rest with
        | Some number => Some (String c EmptyString, number)
        | None =>
            match re_match rest with
            | Some (prefix, number) => Some (String c prefix, number)
            | None => None
            end
        end
      else None
  end.

(** ** Grouping and ordering (lines 73-82 and 105) *)

Definition frame : Type := (Z * string)%type.
Definition group_dict : Type := list (string * list frame).

(** [jpg_files = [f for f in os.listdir(source_dir) if f.endswith('.jpg')]] *)
Definition jpg_files (listing : list string) : list string :=
  filter (fun f => endswith f ".jpg") listing.

(** [groups[prefix].append(item)] on a [defaultdict(list)]: a dict keeps
    its keys in the order of their first insertion. *)
Fixpoint groups_append (prefix : string) (item : frame) (groups : group_dict)
  : group_dict :=
  match groups with
  | [] => [(prefix, [item])]
  | (k, v) :: groups' =>
      if String.eqb k prefix then (k, v ++ [item]) :: groups'
      else (k, v) :: groups_append prefix item groups'
  end.

(** The body of the grouping loop. *)
Definition group_step (groups : group_dict) (file : string) : group_dict :=
  match re_match file with
  | Some (prefix, number) => groups_append prefix (int number, file) groups
  | None => groups
  end.

Definition build_groups (files : list string) : group_dict :=
  fold_left group_step files [].

(** [groups.get(prefix)] *)
Fixpoint groups_get (prefix : string) (groups : group_dict)
  : option (list frame) :=
  match groups with
  | [] => None
  | (k, v) :: groups' =>
      if String.eqb k prefix then Some v else groups_get prefix groups'
  end.

(** [sorted(files, key=lambda x: x[0])]: a stable sort on the frame
    number.  Insertion from the right puts an item in front of the first
    item whose number is not smaller, so equal numbers keep their order. *)
Fixpoint insert_frame (x : frame) (l : list frame) : list frame :=
  match l with
  | [] => [x]
  | y :: l' =>
      if (fst x <=? fst y)%Z then x :: y :: l' else y :: insert_frame x l'
  end.

Fixpoint sorted_by_number (files : list frame) : list frame :=
  match files with
  | [] => []
  | x :: files' => insert_frame x (sorted_by_number files')
  end.

(** ** The categories (lines 85-94) *)

Definition categories : list string :=
  [ "0.Address";
    "1.Toe-up";
    "2.Mid-backswing";
    "3.Top";
    "4.Mid-downswing";
    "5.Impact";
    "6.Mid-follow-through";
    "7.Finish" ].

(** [categories[i]], used only below the guard [i >= len(categories)] *)
Definition category (i : nat) : string := nth i categories "".

(** ** The file system *)

Definition path : Type := list string.

(** A regular file with its content, or a directory. *)
Inductive node : Type :=
| File (data : N)
| Dir.

Definition filesystem : Type := list (path * node).

Fixpoint path_eqb (p q : path) : bool :=
  match p, q with
  | [], [] => true
  | a :: p', b :: q' => String.eqb a b && path_eqb p' q'
  | _, _ => false
  end.

(** [under d p]: [p] is [d] or lies below [d]. *)
Fixpoint under (d p : path) : bool :=
  match d with
  | [] => true
  | a :: d' =>
      match p with
      | [] => false
      | b :: p' => String.eqb a b && under d' p'
      end
  end.

Fixpoint assoc (p : path) (fs : filesystem) : option node :=
  match fs with
  | [] => None
  | (q, n) :: fs' => if path_eqb q p then Some n else assoc p fs'
  end.

(** The root always exists and is a directory. *)
Definition lookup (fs : filesystem) (p : path) : option node :=
  match p with
  | [] => Some Dir
  | _ => assoc p fs
  end.

Definition parent (p : path) : path := removelast p.

(** [os.path.basename] *)
Definition basename (p : path) : string := last p "".

(** [child_name d p = Some name] when [p = d ++ [name]]. *)
Fixpoint child_name (d p : path) : option string :=
  match d, p with
  | [], [name] => Some name
  | a :: d', b :: p' => if String.eqb a b then child_name d' p' else None
  | _, _ => None
  end.

(** The names directly inside [d], in listing order. *)
Fixpoint entries (d : path) (fs : filesystem) : list string :=
  match fs with
  | [] => []
  | (p, _) :: fs' =>
      match child_name d p with
      | Some name => name :: entries d fs'
      | None => entries d fs'
      end
  end.

Definition remove_path (p : path) (fs : filesystem) : filesystem :=
  filter (fun e => negb (path_eqb (fst e) p)) fs.

(** Moving the subtree at [src] to [dst]: entries outside the subtree
    stay where they are, the subtree's entries are re-rooted. *)
Definition reroot (src dst : path) (e : path * node) : path * node :=
  (dst ++ skipn (List.length src) (fst e), snd e).

Definition move_subtree (src dst : path) (fs : filesystem) : filesystem :=
  filter (fun e => negb (under src (fst e))) fs
  ++ map (reroot src dst) (filter (fun e => under src (fst e)) fs).

(** ** State and exceptions *)

Inductive exn : Type :=
| FileNotFoundError
| NotADirectoryError
| IsADirectoryError
| FileExistsError
| OSError
| ShutilError.

Record world : Type := mkWorld {
  fs : filesystem;
  stdout : list string
}.

Inductive outcome (A : Type) : Type :=
| Ok (a : A) (w : world)
| Raise (e : exn) (w : world).

Arguments Ok {A} a w.
Arguments Raise {A} e w.

Definition M (A : Type) : Type := world -> outcome A.

Definition ret {A : Type} (a : A) : M A := fun w => Ok a w.

Definition bind {A B : Type} (m : M A) (k : A -> M B) : M B :=
  fun w =>
    match m w with
    | Ok a w' => k a w'
    | Raise e w' => Raise e w'
    end.

Definition raise {A : Type} (e : exn) : M A := fun w => Raise e w.

Notation "x <- m ;; k" := (bind m (fun x => k))
  (at level 61, m at next level, right associativity).
Notation "m ;; k" := (bind m (fun _ => k))
  (at level 61, right associativity).

(** The world an execution leaves behind, whether it returned or raised. *)
Definition final_world {A : Type} (o : outcome A) : world :=
  match o with
  | Ok _ w => w
  | Raise _ w => w
  end.

(** [try: m  except OSError: handler] (every exception of [exn] is an
    [OSError] in Python's hierarchy). *)
Definition try_except {A : Type} (m : M A) (handler : exn -> M A) : M A :=
  fun w =>
    match m w with
    | Ok a w' => Ok a w'
    | Raise e w' => handler e w'
    end.

(** [try: m  except FileExistsError: pass] *)
Definition pass_file_exists (m : M unit) : M unit :=
  fun w =>
    match m w with
    | Raise FileExistsError w' => Ok tt w'
    | o => o
    end.

(** [for x in l: body(x)] *)
Fixpoint for_each {A : Type} (l : list A) (body : A -> M unit) : M unit :=
  match l with
  | [] => ret tt
  | x :: l' => body x ;; for_each l' body
  end.

Definition set_fs (f : filesystem) : M unit :=
  fun w => Ok tt (mkWorld f (stdout w)).

Definition get_fs : M filesystem := fun w => Ok (fs w) w.

(** [print(line)] *)
Definition print (line : string) : M unit :=
  fun w => Ok tt (mkWorld (fs w) (stdout w ++ [line])).

(** ** Operating-system calls

    One device, no symbolic links, no permissions: the calls fail only
    for the reasons the paths themselves give. *)

Definition exists_in (f : filesystem) (p : path) : bool :=
  match lookup f p with
  | Some _ => true
  | None => false
  end.

Definition isdir_in (f : filesystem) (p : path) : bool :=
  match lookup f p with
  | Some Dir => true
  | _ => false
  end.

(** [os.path.exists] *)
Definition os_path_exists (p : path) : M bool :=
  fun w => Ok (exists_in (fs w) p) w.

(** [os.path.isdir] *)
Definition os_path_isdir (p : path) : M bool :=
  fun w => Ok (isdir_in (fs w) p) w.

(** [os.listdir] *)
Definition os_listdir (d : path) : M (list string) :=
  fun w =>
    match lookup (fs w) d with
    | Some Dir => Ok (entries d (fs w)) w
    | Some (File _) => Raise NotADirectoryError w
    | None => Raise FileNotFoundError w
    end.

(** Resolving the directory that is to hold [p]. *)
Definition check_parent (p : path) : M unit :=
  fun w =>
    match lookup (fs w) (parent p) with
    | Some Dir => Ok tt w
    | Some (File _) => Raise NotADirectoryError w
    | None => Raise FileNotFoundError w
    end.

(** [os.mkdir] *)
Definition os_mkdir (p : path) : M unit :=
  check_parent p ;;
  e <- os_path_exists p ;;
  if e then raise FileExistsError
  else f <- get_fs ;; set_fs (f ++ [(p, Dir)]).

(** [os.makedirs(name, exist_ok)], on the reversed path: the parents
    first, when the parent does not exist, then [mkdir(name)]. *)
Fixpoint makedirs_rev (exist_ok : bool) (rname : list string) : M unit :=
  match rname with
  | _ :: ((_ :: _) as rhead) =>
      e <- os_path_exists (rev rhead) ;;
      if e then ret tt else pass_file_exists (makedirs_rev exist_ok rhead)
  | _ => ret tt
  end ;;
  try_except (os_mkdir (rev rname))
    (fun e =>
       d <- os_path_isdir (rev rname) ;;
       if exist_ok && d then ret tt else raise e).

Definition os_makedirs (name : path) (exist_ok : bool) : M unit :=
  makedirs_rev exist_ok (rev name).

(** [os.rename], with the POSIX behaviour: a regular file replaces a
    regular file at the destination; a directory replaces an empty one. *)
Definition os_rename (src dst : path) : M unit :=
  fun w =>
    let f := fs w in
    match lookup f src with
    | None => Raise FileNotFoundError w
    | Some n =>
        match lookup f (parent dst) with
        | None => Raise FileNotFoundError w
        | Some (File _) => Raise NotADirectoryError w
        | Some Dir =>
            if path_eqb src dst then Ok tt w
            else
              match n with
              | File d =>
                  match lookup f dst with
                  | Some Dir => Raise IsADirectoryError w
                  | _ =>
                      Ok tt (mkWorld
                               (remove_path dst (remove_path src f)
                                ++ [(dst, File d)])
                               (stdout w))
                  end
              | Dir =>
                  if under src dst then Raise OSError w
                  else
                    match lookup f dst with
                    | Some (File _) => Raise NotADirectoryError w
                    | Some Dir =>
                        if existsb
                             (fun e => under dst (fst e)
                                       && negb (path_eqb dst (fst e))) f
                        then Raise OSError w
                        else Ok tt (mkWorld
                                      (move_subtree src dst (remove_path dst f))
                                      (stdout w))
                    | None =>
                        Ok tt (mkWorld (move_subtree src dst f) (stdout w))
                    end
              end
        end
    end.

(** [shutil.copy2] of a regular file *)
Definition copy2 (src dst : path) : M unit :=
  fun w =>
    let f := fs w in
    match lookup f src with
    | None => Raise FileNotFoundError w
    | Some Dir => Raise IsADirectoryError w
    | Some (File d) =>
        if path_eqb src dst then Raise ShutilError w
        else
          match lookup f (parent dst) with
          | None => Raise FileNotFoundError w
          | Some (File _) => Raise NotADirectoryError w
          | Some Dir =>
              match lookup f dst with
              | Some Dir => Raise IsADirectoryError w
              | _ => Ok tt (mkWorld (remove_path dst f ++ [(dst, File d)])
                                    (stdout w))
              end
          end
    end.

(** [os.unlink] *)
Definition os_unlink (p : path) : M unit :=
  fun w =>
    match lookup (fs w) p with
    | None => Raise FileNotFoundError w
    | Some Dir => Raise IsADirectoryError w
    | Some (File _) => Ok tt (mkWorld (remove_path p (fs w)) (stdout w))
    end.

(** [shutil.copytree(src, dst)]: [os.makedirs(dst)], then the content. *)
Definition copytree (src dst : path) : M unit :=
  os_makedirs dst false ;;
  f <- get_fs ;;
  set_fs (f ++ map (reroot src dst)
                   (filter (fun e => under src (fst e)
                                     && negb (path_eqb src (fst e))) f)).

(** [shutil.rmtree] *)
Definition rmtree (p : path) : M unit :=
  f <- get_fs ;;
  set_fs (filter (fun e => negb (under p (fst e))) f).

(** What [shutil.move] does when [os.rename] has failed. *)
Definition move_fallback (src dst real_dst : path) : M unit :=
  d <- os_path_isdir src ;;
  if d then
    if under src dst then raise ShutilError
    else copytree src real_dst ;; rmtree src
  else copy2 src real_dst ;; os_unlink src.

(** [shutil.move(src, dst)] *)
Definition shutil_move (src dst : path) : M unit :=
  d <- os_path_isdir dst ;;
  if d then
    if path_eqb src dst then os_rename src dst
    else
      let real_dst := dst ++ [basename src] in
      e <- os_path_exists real_dst ;;
      if e then raise ShutilError
      else try_except (os_rename src real_dst)
                      (fun _ => move_fallback src dst real_dst)
  else try_except (os_rename src dst)
                  (fun _ => move_fallback src dst dst).

(** ** The sorter (lines 71-119) *)

(** The three f-strings the sorter prints (lines 108, 113 and 119). *)
Definition note_line (prefix : string) (n : nat) : string :=
  ("Note: Group " ++ prefix ++ " has " ++ str n ++ " frames")%string.

Definition warning_line (prefix : string) : string :=
  ("Warning: More frames than categories for " ++ prefix
   ++ ", skipping extra frames")%string.

Definition moved_line (filename category : string) : string :=
  ("Moved " ++ filename ++ " to " ++ category)%string.

(** Lines 111-119: the loop over [enumerate(sorted_files)], entered with
    index [i]. *)
Fixpoint move_frames (source_dir target_dir : path) (prefix : string)
    (i : nat) (sorted_files : list frame) : M unit :=
  match sorted_files with
  | [] => ret tt
  | (number, filename) :: rest =>
      if (List.length categories <=? i)%nat then
        print (warning_line prefix)
      else
        let src_path := source_dir ++ [filename] in
        let dst_path := target_dir ++ [category i; filename] in
        shutil_move src_path dst_path ;;
        print (moved_line filename (category i)) ;;
        move_frames source_dir target_dir prefix (S i) rest
  end.

(** Lines 104-119: the body of the loop over [groups.items()]. *)
Definition process_group (source_dir target_dir : path)
    (g : string * list frame) : M unit :=
  let prefix := fst g in
  let sorted_files := sorted_by_number (snd g) in
  (if negb (List.length sorted_files =? 8)%nat then
     print (note_line prefix (List.length sorted_files))
   else ret tt) ;;
  move_frames source_dir target_dir prefix 0 sorted_files.

(** Lines 97-100: the body of the loop over [categories]. *)
Definition make_category_dir (target_dir : path) (category : string)
  : M unit :=
  let category_dir := target_dir ++ [category] in
  e <- os_path_exists category_dir ;;
  if negb e then os_makedirs category_dir false else ret tt.

Definition sort_golf_swing_images (source_dir target_dir : path) : M unit :=
  listing <- os_listdir source_dir ;;
  let groups := build_groups (jpg_files listing) in
  for_each categories (make_category_dir target_dir) ;;
  for_each groups (process_group source_dir target_dir).

(** ** The batch driver (lines 122-181) *)

(** The parsed command line, as far as the driver itself reads it; the
    other options only travel to the pose-estimation library. *)
Record args : Type := mkArgs {
  base_folder : path;
  output_folder : path;
  skip_processed : bool;
  with_original_img : bool
}.

(** The f-string of line 165. *)
Definition skip_line (file : string) : string :=
  ("Image " ++ file ++ " already processed. Skipping...")%string.

(** [list.sort()] on names *)
Fixpoint insert_name (x : string) (l : list string) : list string :=
  match l with
  | [] => [x]
  | y :: l' => if String.leb x y then x :: y :: l' else y :: insert_name x l'
  end.

Fixpoint sort_names (l : list string) : list string :=
  match l with
  | [] => []
  | x :: l' => insert_name x (sort_names l')
  end.

Section Driver.

(** The pose-estimation library: model and visualizer construction, and
    [process_image], which runs the inference and writes [out_path]. *)
Variables model visualizer : Type.
Variable init_model : args -> M model.
Variable build_visualizer : model -> args -> M visualizer.
Variable process_image :
  model -> visualizer -> path -> path -> args -> M unit.

(** Lines 161-173: the body of the loop over one folder's images; the
    value is the count of the total progress bar. *)
Definition process_file (m : model) (v : visualizer) (a : args)
    (sub_data_folder_path : path) (pbar : nat) (file : string) : M nat :=
  let out_path := output_folder a ++ [(file ++ "_vis_results.jpg")%string] in
  e <- os_path_exists out_path ;;
  if skip_processed a && e then
    print (skip_line file) ;;
    ret (pbar + 1)
  else
    let file_path := sub_data_folder_path ++ [file] in
    process_image m v file_path out_path a ;;
    ret (pbar + 1).

Fixpoint process_files (m : model) (v : visualizer) (a : args)
    (sub_data_folder_path : path) (pbar : nat) (data_files : list string)
  : M nat :=
  match data_files with
  | [] => ret pbar
  | file :: rest =>
      pbar' <- process_file m v a sub_data_folder_path pbar file ;;
      process_files m v a sub_data_folder_path pbar' rest
  end.

(** Lines 154-174 *)
Fixpoint process_folders (m : model) (v : visualizer) (a : args)
    (pbar : nat) (sub_data_folders : list string) : M nat :=
  match sub_data_folders with
  | [] => ret pbar
  | sub_data_folder :: rest =>
      let sub_data_folder_path := base_folder a ++ [sub_data_folder] in
      listing <- os_listdir sub_data_folder_path ;;
      let data_files := sort_names (jpg_files listing) in
      pbar' <- process_files m v a sub_data_folder_path pbar data_files ;;
      process_folders m v a pbar' rest
  end.

(** Lines 147-149 *)
Fixpoint count_files (a : args) (sub_data_folders : list string) : M nat :=
  match sub_data_folders with
  | [] => ret 0
  | folder :: rest =>
      listing <- os_listdir (base_folder a ++ [folder]) ;;
      n <- count_files a rest ;;
      ret (List.length (jpg_files listing) + n)
  end.

Definition extract_pose_from_imgs (a : args) : M unit :=
  m <- init_model a ;;
  v <- build_visualizer m a ;;
  os_makedirs (output_folder a) true ;;
  listing <- os_listdir (base_folder a) ;;
  f <- get_fs ;;
  let sub_data_folders :=
    sort_names (filter (fun d => isdir_in f (base_folder a ++ [d])) listing) in
  total_files <- count_files a sub_data_folders ;;
  print (str total_files ++ " files found")%string ;;
  process_folders m v a 0 sub_data_folders ;;
  print "Reorganizing images..." ;;
  sort_golf_swing_images (output_folder a) (output_folder a) ;;
  print "Done".

End Driver.

(** ** The calls the sorter issues

    Lines 103-119 decide which lines to print and which files to move
    from the groups alone; the file system only decides whether a move
    succeeds.  [group_script] is that sequence of decisions. *)

Inductive action : Type :=
| Say (line : string)
| Move (filename category : string).

Definition run_action (source_dir target_dir : path) (a : action) : M unit :=
  match a with
  | Say line => print line
  | Move filename c =>
      shutil_move (source_dir ++ [filename]) (target_dir ++ [c; filename])
  end.

Definition run_script (source_dir target_dir : path) (s : list action)
  : M unit :=
  for_each s (run_action source_dir target_dir).

(** The loop over [enumerate(sorted_files)] when [cats] are the categories
    from the current index on. *)
Fixpoint frames_script (prefix : string) (cats : list string)
    (sorted_files : list frame) {struct sorted_files} : list action :=
  match sorted_files with
  | [] => []
  | (_, filename) :: rest =>
      match cats with
      | [] => [Say (warning_line prefix)]
      | c :: cats' =>
          Move filename c
          :: Say (moved_line filename c)
          :: frames_script prefix cats' rest
      end
  end.

Definition group_script (g : string * list frame) : list action :=
  let sorted_files := sorted_by_number (snd g) in
  (if negb (List.length sorted_files =? 8)%nat then
     [Say (note_line (fst g) (List.length sorted_files))]
   else [])
  ++ frames_script (fst g) categories sorted_files.

Definition sorter_script (listing : list string) : list action :=
  flat_map group_script (build_groups (jpg_files listing)).

(** The moves of a script, as (file name, category), and its lines. *)
Fixpoint moves (s : list action) : list (string * string) :=
  match s with
  | [] => []
  | Say _ :: s' => moves s'
  | Move f c :: s' => (f, c) :: moves s'
  end.

Fixpoint lines (s : list action) : list string :=
  match s with
  | [] => []
  | Say l :: s' => l :: lines s'
  | Move _ _ :: s' => lines s'
  end.

(** ** Ordinary inputs *)

Definition is_file_in (f : filesystem) (p : path) : bool :=
  match lookup f p with
  | Some (File _) => true
  | _ => false
  end.

(** The names the sorter groups: they end in [.jpg] and the pattern
    matches at their start. *)
Definition grouped (name : string) : bool :=
  endswith name ".jpg"
  && match re_match name with Some _ => true | None => false end.

Fixpoint nodupb (l : list string) : bool :=
  match l with
  | [] => true
  | x :: l' => negb (existsb (String.eqb x) l') && nodupb l'
  end.

(** [regular w source target]: the source and the target are
    directories, no name is listed twice, no regular file sits where a
    category directory belongs, every grouped name is a regular file, and
    no directory sits where such a file could be moved to. *)
Definition regular (w : world) (source target : path) : bool :=
  isdir_in (fs w) source
  && isdir_in (fs w) target
  && nodupb (entries source (fs w))
  && forallb (fun c => negb (is_file_in (fs w) (target ++ [c]))) categories
  && forallb
       (fun f =>
          negb (grouped f)
          || (is_file_in (fs w) (source ++ [f])
              && forallb (fun c => negb (isdir_in (fs w) (target ++ [c; f])))
                         categories))
       (entries source (fs w)).

(** The frames of the group of [prefix], in listing order. *)
Definition group_of (prefix : string) (listing : list string) : list frame :=
  match groups_get prefix (build_groups (jpg_files listing)) with
  | Some frames => frames
  | None => []
  end.

(** ** The pattern in the specification's words *)

Definition all_digits (s : string) : bool :=
  forallb is_digit (list_ascii_of_string s).

Definition no_line_feed (s : string) : bool :=
  forallb is_dot (list_ascii_of_string s).

Definition no_underscore (s : string) : bool :=
  forallb (fun c => negb (Ascii.eqb c "_")) (list_ascii_of_string s).

(** A name of the form [<prefix>_<4digits>.jpg_vis_results.jpg]. *)
Definition has_pattern_form (name : string) : Prop :=
  exists prefix digits : string,
    name = (prefix ++ "_" ++ digits ++ ".jpg_vis_results.jpg")%string
    /\ String.length digits = 4
    /\ all_digits digits = true.

(** A name with an initial segment of that form, the prefix being
    non-empty and free of line feeds. *)
Definition starts_with_pattern (name : string) : Prop :=
  exists prefix digits rest : string,
    name = (prefix ++ "_" ++ digits ++ ".jpg_vis_results.jpg" ++ rest)%string
    /\ prefix <> EmptyString
    /\ no_line_feed prefix = true
    /\ String.length digits = 4
    /\ all_digits digits = true.

(** * Proof vocabulary *)

(** ** Frames of a prefix *)

(** [prefix_is k f]: the pattern matches [f] with first group [k]. *)
Definition prefix_is (k : string) (f : string) : bool :=
  match re_match f with
  | Some (k', _) => String.eqb k' k
  | None => false
  end.

(** The pair the grouping loop appends for a matching file. *)
Definition frame_of (f : string) : frame :=
  (match re_match f with Some (_, number) => int number | None => 0%Z end, f).

(** The frames of the files whose prefix is [k], in the order of [files]. *)
Definition members (k : string) (files : list string) : list frame :=
  map frame_of (filter (prefix_is k) files).

(** [groups[k]], empty when the key is absent. *)
Definition frames_of (k : string) (g : group_dict) : list frame :=
  match groups_get k g with
  | Some l => l
  | None => []
  end.

(** The default of [nth] on lists of frames. *)
Definition no_frame : frame := (0%Z, "").

(** ** Invariants of an execution *)

(** [keeps I m]: whatever [m] does, returning or raising, it leaves a
    world in which [I] still holds. *)
Definition keeps {A : Type} (I : world -> Prop) (m : M A) : Prop :=
  forall w, I w -> I (final_world (m w)).

(** [holds p x]: the path [p] carries the node [x]. *)
Definition holds (p : path) (x : node) (w : world) : Prop :=
  lookup (fs w) p = Some x.

(** ** The file system after the sorter's steps *)

(** The lookups once the directories [cats] have been made under
    [target], none of them being a regular file in [f]. *)
Definition dirs_made (target : path) (cats : list string) (f : filesystem)
    (p : path) : option node :=
  if existsb (fun c => path_eqb (target ++ [c]) p) cats then Some Dir
  else lookup f p.

(** The lookups once the moves [ms] have been carried out on [f0]: a
    destination holds what its source held, a source is gone, the rest is
    as before. *)
Definition after_moves (source target : path) (ms : list (string * string))
    (f0 : filesystem) (p : path) : option node :=
  match find (fun m => path_eqb (target ++ [snd m; fst m]) p) ms with
  | Some m => lookup f0 (source ++ [fst m])
  | None =>
      if existsb (fun m => path_eqb (source ++ [fst m]) p) ms then None
      else lookup f0 p
  end.

(** The move [m] of a regular file finds its category directory and no
    directory in its way. *)
Definition movable (source target : path) (f0 : filesystem)
    (m : string * string) : Prop :=
  is_file_in f0 (source ++ [fst m]) = true
  /\ lookup f0 (target ++ [snd m]) = Some Dir
  /\ isdir_in f0 (target ++ [snd m; fst m]) = false.

(** What [regular w source target = true] says. *)
Record regular_facts (w : world) (source target : path) : Prop := {
  reg_source : lookup (fs w) source = Some Dir;
  reg_target : lookup (fs w) target = Some Dir;
  reg_listing : NoDup (entries source (fs w));
  reg_categories :
    forallb (fun c => negb (is_file_in (fs w) (target ++ [c]))) categories
    = true;
  reg_files :
    forall f, In f (entries source (fs w)) -> grouped f = true ->
              is_file_in (fs w) (source ++ [f]) = true;
  reg_free :
    forall f c, In f (entries source (fs w)) -> grouped f = true ->
                In c categories ->
                isdir_in (fs w) (target ++ [c; f]) = false
}.

(** What an ordinary run leaves behind. *)
Record sorted_world (source target : path) (w w' : world) : Prop := {
  sw_stdout :
    stdout w' = stdout w ++ lines (sorter_script (entries source (fs w)));
  sw_moved :
    forall f c, In (f, c) (moves (sorter_script (entries source (fs w)))) ->
      is_file_in (fs w) (source ++ [f]) = true
      /\ lookup (fs w') (target ++ [c; f]) = lookup (fs w) (source ++ [f]);
  sw_gone :
    forall f c, In (f, c) (moves (sorter_script (entries source (fs w)))) ->
      source ++ [f] <> target ++ [c; f] ->
      lookup (fs w') (source ++ [f]) = None;
  sw_rest :
    forall p,
      (forall f c, In (f, c) (moves (sorter_script (entries source (fs w)))) ->
                   p <> source ++ [f] /\ p <> target ++ [c; f]) ->
      lookup (fs w') p = dirs_made target categories (fs w) p;
  sw_origin :
    forall p d, lookup (fs w') p = Some (File d) ->
      lookup (fs w) p = Some (File d)
      \/ exists f c,
           In (f, c) (moves (sorter_script (entries source (fs w))))
           /\ p = target ++ [c; f]
           /\ lookup (fs w) (source ++ [f]) = Some (File d)
}.

(** ** Sample directories *)

Definition vis (prefix digits : string) : string :=
  (prefix ++ "_" ++ digits ++ ".jpg_vis_results.jpg")%string.

(** A directory [d] holding regular files only. *)
Definition flat_dir (d : path) (files : list (string * N)) : filesystem :=
  (d, Dir) :: map (fun e => (d ++ [fst e], File (snd e))) files.

Definition out : path := ["out"].

Definition swing_a : list (string * N) :=
  [ (vis "a" "0003", 13%N); (vis "a" "0000", 10%N); (vis "a" "0007", 17%N);
    (vis "a" "0001", 11%N); (vis "a" "0005", 15%N); (vis "a" "0002", 12%N);
    (vis "a" "0006", 16%N); (vis "a" "0004", 14%N) ].

Definition swing_b : list (string * N) :=
  [ (vis "b" "0104", 24%N); (vis "b" "0101", 21%N); (vis "b" "0100", 20%N);
    (vis "b" "0107", 27%N); (vis "b" "0102", 22%N); (vis "b" "0106", 26%N);
    (vis "b" "0103", 23%N); (vis "b" "0105", 25%N) ].

Definition full_world : world :=
  mkWorld (flat_dir out (swing_a ++ [("notes.jpg", 99%N)])) [].

Definition two_world : world := mkWorld (flat_dir out (swing_a ++ swing_b)) [].

Definition long_world : world :=
  mkWorld
    (flat_dir out
       [ (vis "s" "0007", 107%N); (vis "s" "0012", 112%N);
         (vis "s" "0003", 103%N); (vis "s" "0010", 110%N);
         (vis "s" "0005", 105%N); (vis "s" "0011", 111%N);
         (vis "s" "0004", 104%N); (vis "s" "0009", 109%N);
         (vis "s" "0006", 106%N); (vis "s" "0008", 108%N) ])
    [].

Definition short_world : world :=
  mkWorld
    (flat_dir out
       [ (vis "s" "0022", 122%N); (vis "s" "0020", 120%N);
         (vis "s" "0024", 124%N); (vis "s" "0021", 121%N);
         (vis "s" "0023", 123%N) ])
    [].


Definition stray_name : string := "a_0001.jpg_vis_results.jpg.copy.jpg".

Definition stray_world : world := mkWorld (flat_dir out [(stray_name, 7%N)]) [].

(** A name that starts with the pattern and does not end in [.jpg]. *)
Definition backup_name : string := "a_0001.jpg_vis_results.jpg.bak".

Definition backup_world : world :=
  mkWorld (flat_dir out [(backup_name, 8%N); (vis "a" "0001", 11%N)]) [].

Definition clash_world : world :=
  mkWorld [ (out, Dir);
            (out ++ [vis "a" "0000"], File 1);
            (out ++ ["0.Address"], Dir);
            (out ++ ["0.Address"; vis "a" "0000"], File 2) ] [].

(** A category directory that is sorted into the directory above it. *)
Definition nested_world : world :=
  mkWorld [ (out, Dir);
            (out ++ ["0.Address"], Dir);
            (out ++ ["0.Address"; vis "a" "0003"], File 13);
            (out ++ ["0.Address"; vis "a" "0001"], File 11) ] [].

Definition skip_args : args := mkArgs ["in"] out true true.

Definition skip_world : world :=
  mkWorld (flat_dir out [("x.jpg_vis_results.jpg", 5%N)]) [].

(** Two explicit duplicate-free lists with the same elements. *)
Ltac concrete_perm :=
  apply NoDup_Permutation;
  [ repeat (constructor; [cbn; intuition discriminate|]); constructor
  | repeat (constructor; [cbn; intuition discriminate|]); constructor
  | intros x; cbn; tauto ].

(** * Further code and vocabulary *)

(** ** The interpreter's search path and environment (lines 12-20) *)

(** [sys.path] and [os.environ]. *)
Record interpreter : Type := mkInterpreter {
  sys_path : list string;
  environ : list (string * string)
}.

(** [os.environ.get(key, default)] *)
Fixpoint environ_get (key default : string) (env : list (string * string))
  : string :=
  match env with
  | [] => default
  | (k, v) :: env' =>
      if String.eqb k key then v else environ_get key default env'
  end.

(** [os.environ[key] = value] *)
Fixpoint environ_set (key value : string) (env : list (string * string))
  : list (string * string) :=
  match env with
  | [] => [(key, value)]
  | (k, v) :: env' =>
      if String.eqb k key then (k, value) :: env'
      else (k, v) :: environ_set key value env'
  end.

(** [os.path.join(a, b)] for a relative [b], with the POSIX separator. *)
Definition path_join (a b : string) : string :=
  if String.eqb a "" then b
  else if endswith a "/" then (a ++ b)%string
       else (a ++ "/" ++ b)%string.

(** [os.pathsep] on POSIX *)
Definition pathsep : string := ":".

(** [setup_env()], where [project_root] is the directory of the script,
    [os.path.dirname(os.path.abspath(__file__))]. *)
Definition setup_env (project_root : string) (s : interpreter)
  : interpreter :=
  let mmpose_path := path_join project_root "mmpose" in
  let sys_path' :=
    if existsb (String.eqb mmpose_path) (sys_path s) then sys_path s
    else mmpose_path :: sys_path s in
  mkInterpreter sys_path'
    (environ_set "PYTHONPATH"
       (mmpose_path ++ pathsep ++ environ_get "PYTHONPATH" "" (environ s))
       (environ s)).

(** ** Further vocabulary *)

Definition no_dot (s : string) : bool :=
  forallb (fun c => negb (Ascii.eqb c ".")) (list_ascii_of_string s).

(** The frames of [l] with frame number [n], in the order of [l]. *)
Definition with_number (n : Z) (l : list frame) : list frame :=
  filter (fun x => Z.eqb (fst x) n) l.

(** ** Further inputs of the sorter *)

(** The lookups once the directories [cats] have been looked for under
    [target] and made where nothing was. *)
Definition dirs_added (target : path) (cats : list string) (f : filesystem)
    (p : path) : option node :=
  match lookup f p with
  | Some x => Some x
  | None =>
      if existsb (fun c => path_eqb (target ++ [c]) p) cats then Some Dir
      else None
  end.

(** [plain w source target]: as [regular], but a category path may hold
    anything. *)
Definition plain (w : world) (source target : path) : bool :=
  isdir_in (fs w) source
  && isdir_in (fs w) target
  && nodupb (entries source (fs w))
  && forallb
       (fun f =>
          negb (grouped f)
          || (is_file_in (fs w) (source ++ [f])
              && forallb (fun c => negb (isdir_in (fs w) (target ++ [c; f])))
                         categories))
       (entries source (fs w)).

(** A directory in which a regular file is named like a category. *)
Definition blocked_world : world :=
  mkWorld
    (flat_dir out
       [ (vis "a" "0002", 12%N); (vis "a" "0000", 10%N);
         ("1.Toe-up", 50%N); (vis "a" "0001", 11%N) ])
    [].

(** No group has more than eight frames. *)
Definition groups_fit (listing : list string) : bool :=
  forallb (fun g => (List.length (snd g) <=? 8)%nat)
          (build_groups (jpg_files listing)).

(** ** Inputs of the driver *)

(** The path line 162 writes the result of [file] to. *)
Definition out_path (a : args) (file : string) : path :=
  output_folder a ++ [(file ++ "_vis_results.jpg")%string].

(** A stand-in for the pose-estimation library that only writes the
    output file, with the content [1]. *)
Definition write_output (_ _ : unit) (_ out_file : path) (_ : args)
  : M unit :=
  fun w => Ok tt (mkWorld (remove_path out_file (fs w) ++ [(out_file, File 1)])
                          (stdout w)).

(** A stand-in that fails on every image. *)
Definition failing_library (_ _ : unit) (_ _ : path) (_ : args) : M unit :=
  raise OSError.

Definition plain_args : args := mkArgs ["in"] out false true.

(** An input folder with one sub-folder of two images. *)
Definition input_world : world :=
  mkWorld
    [ (["in"], Dir); (["in"; "swing"], Dir);
      (["in"; "swing"; "a_0001.jpg"], File 1);
      (["in"; "swing"; "a_0000.jpg"], File 2);
      (["in"; "stray.jpg"], File 3) ]
    [].

(** An input folder that holds images but no sub-folder, next to an
    output folder from an earlier run. *)
Definition flat_input_world : world :=
  mkWorld [ (["in"], Dir); (["in"; "a_0000.jpg"], File 2); (out, Dir) ] [].

(** The same input folder before the first run: no output folder yet. *)
Definition first_run_world : world :=
  mkWorld [ (["in"], Dir); (["in"; "a_0000.jpg"], File 2) ] [].

(** A stand-in for the construction of the model and of the visualizer. *)
Definition no_model (_ : args) : M unit := ret tt.

Definition no_visualizer (_ : unit) (_ : args) : M unit := ret tt.



(** * Properties *)

(** ** The model on small inputs *)

Example re_match_plain :
  re_match "a_0001.jpg_vis_results.jpg" = Some ("a", "0001").
Proof. reflexivity. Qed.

Example re_match_lazy :
  re_match "a_0001.jpg_vis_results.jpg_b_0002.jpg_vis_results.jpg"
  = Some ("a", "0001").
Proof. reflexivity. Qed.

Example re_match_underscores :
  re_match "swing_12_0731.jpg_vis_results.jpg" = Some ("swing_12", "0731").
Proof. reflexivity. Qed.

Example re_match_short_number :
  re_match "a_001.jpg_vis_results.jpg" = None.
Proof. reflexivity. Qed.

Example build_groups_two :
  build_groups ["b_0001.jpg_vis_results.jpg"; "a_0002.jpg_vis_results.jpg";
                "b_0000.jpg_vis_results.jpg"; "notes.jpg"]
  = [("b", [(1%Z, "b_0001.jpg_vis_results.jpg");
            (0%Z, "b_0000.jpg_vis_results.jpg")]);
     ("a", [(2%Z, "a_0002.jpg_vis_results.jpg")])].
Proof. reflexivity. Qed.

Example sorted_stable :
  sorted_by_number [(2%Z, "x"); (1%Z, "y"); (2%Z, "z"); (1%Z, "w")]
  = [(1%Z, "y"); (1%Z, "w"); (2%Z, "x"); (2%Z, "z")].
Proof. reflexivity. Qed.

(** ** Paths *)

Lemma path_eqb_spec (p q : path) : reflect (p = q) (path_eqb p q).
Proof.
  revert q; induction p as [|a p IH]; intros [|b q]; simpl;
    try (constructor; congruence).
  destruct (String.eqb_spec a b) as [->|Hab]; simpl.
  - destruct (IH q) as [->|Hpq]; constructor; congruence.
  - constructor; congruence.
Qed.

Lemma path_eqb_refl (p : path) : path_eqb p p = true.
Proof. destruct (path_eqb_spec p p); congruence. Qed.

Lemma path_eqb_neq (p q : path) : p <> q -> path_eqb p q = false.
Proof. destruct (path_eqb_spec p q); congruence. Qed.

Lemma under_iff (d p : path) : under d p = true <-> exists r, p = d ++ r.
Proof.
  revert p; induction d as [|a d IH]; intros p; simpl.
  - split; [intros _; now exists p | reflexivity].
  - destruct p as [|b p].
    + split; [discriminate | intros [r Hr]; discriminate].
    + rewrite andb_true_iff, String.eqb_eq, IH. split.
      * intros [-> [r ->]]. now exists r.
      * intros [r Hr]. injection Hr as -> ->.
        split; [reflexivity | now exists r].
Qed.

Lemma under_app (d r : path) : under d (d ++ r) = true.
Proof. apply under_iff. now exists r. Qed.

Lemma under_refl (d : path) : under d d = true.
Proof. apply under_iff. exists []. now rewrite app_nil_r. Qed.

Lemma under_trans (a b c : path) :
  under a b = true -> under b c = true -> under a c = true.
Proof.
  rewrite !under_iff. intros [r ->] [r' ->]. exists (r ++ r').
  now rewrite app_assoc.
Qed.

Lemma under_same_length (d p : path) :
  under d p = true -> List.length d = List.length p -> p = d.
Proof.
  rewrite under_iff. intros [r ->] Hlen. rewrite length_app in Hlen.
  destruct r as [|x r]; [now rewrite app_nil_r | simpl in Hlen; lia].
Qed.

Lemma parent_snoc (d : path) (x : string) : parent (d ++ [x]) = d.
Proof. apply removelast_last. Qed.

Lemma basename_snoc (d : path) (x : string) : basename (d ++ [x]) = x.
Proof. apply last_last. Qed.

Lemma snoc_inj (d d' : path) (x x' : string) :
  d ++ [x] = d' ++ [x'] -> d = d' /\ x = x'.
Proof. apply app_inj_tail. Qed.

Lemma snoc_not_nil (d : path) (x : string) : d ++ [x] <> [].
Proof. destruct d; discriminate. Qed.

(** ** Lookups *)

Lemma lookup_assoc (f : filesystem) (p : path) :
  p <> [] -> lookup f p = assoc p f.
Proof. destruct p; [congruence | reflexivity]. Qed.

Lemma assoc_app (p : path) (f g : filesystem) :
  assoc p (f ++ g)
  = match assoc p f with Some n => Some n | None => assoc p g end.
Proof.
  induction f as [|[q n] f IH]; simpl; [reflexivity|].
  destruct (path_eqb q p); [reflexivity | exact IH].
Qed.

Lemma assoc_filter_keep (keep : path * node -> bool) (p : path)
    (f : filesystem) :
  (forall n, keep (p, n) = true) -> assoc p (filter keep f) = assoc p f.
Proof.
  intros Hk. induction f as [|[q n] f IH]; simpl; [reflexivity|].
  destruct (path_eqb_spec q p) as [->|Hqp].
  - rewrite Hk. simpl. now rewrite path_eqb_refl.
  - destruct (keep (q, n)); simpl; [|exact IH].
    now rewrite (path_eqb_neq _ _ Hqp).
Qed.

Lemma assoc_filter_drop (keep : path * node -> bool) (p : path)
    (f : filesystem) :
  (forall n, keep (p, n) = false) -> assoc p (filter keep f) = None.
Proof.
  intros Hk. induction f as [|[q n] f IH]; simpl; [reflexivity|].
  destruct (keep (q, n)) eqn:E; [|exact IH]. simpl.
  destruct (path_eqb_spec q p) as [->|Hqp]; [|exact IH].
  rewrite Hk in E. discriminate.
Qed.

Lemma assoc_remove_path (p q : path) (f : filesystem) :
  assoc p (remove_path q f) = if path_eqb q p then None else assoc p f.
Proof.
  unfold remove_path. destruct (path_eqb_spec q p) as [->|Hqp].
  - apply assoc_filter_drop. intros n. simpl. now rewrite path_eqb_refl.
  - apply assoc_filter_keep. intros n. simpl.
    rewrite path_eqb_neq; [reflexivity | congruence].
Qed.

Lemma assoc_In (p : path) (n : node) (f : filesystem) :
  assoc p f = Some n -> In (p, n) f.
Proof.
  induction f as [|[q m] f IH]; simpl; [discriminate|].
  destruct (path_eqb_spec q p) as [->|Hqp].
  - intros [= ->]. now left.
  - intros H. right. now apply IH.
Qed.

Lemma assoc_map_reroot_None (src dst p : path) (f : filesystem) :
  under dst p = false -> assoc p (map (reroot src dst) f) = None.
Proof.
  intros Hp. induction f as [|[q n] f IH]; simpl; [reflexivity|].
  destruct (path_eqb_spec (dst ++ skipn (List.length src) q) p) as [<-|_].
  - now rewrite under_app in Hp.
  - exact IH.
Qed.

(** An entry that exists survives appending. *)
Lemma lookup_app_Some (f g : filesystem) (p : path) (x : node) :
  lookup f p = Some x -> lookup (f ++ g) p = Some x.
Proof.
  destruct p as [|a p]; [trivial|]. simpl. rewrite assoc_app.
  now intros ->.
Qed.

Lemma lookup_remove_path (f : filesystem) (p q : path) :
  p <> q -> lookup (remove_path q f) p = lookup f p.
Proof.
  intros Hpq. destruct p as [|a p]; [reflexivity|]. simpl.
  rewrite assoc_remove_path, path_eqb_neq; [reflexivity | congruence].
Qed.

Lemma lookup_filter_under (f : filesystem) (src p : path) :
  under src p = false ->
  lookup (filter (fun e => negb (under src (fst e))) f) p = lookup f p.
Proof.
  intros Hp. destruct p as [|a p]; [reflexivity|]. simpl.
  apply assoc_filter_keep. intros n. simpl. now rewrite Hp.
Qed.

Lemma lookup_remove_path_same (f : filesystem) (q : path) :
  q <> [] -> lookup (remove_path q f) q = None.
Proof.
  intros Hq. rewrite lookup_assoc by exact Hq.
  now rewrite assoc_remove_path, path_eqb_refl.
Qed.

(** ** Executions *)

Lemma bind_Ok {A B : Type} (m : M A) (k : A -> M B) (w w' : world) (a : A) :
  m w = Ok a w' -> bind m k w = k a w'.
Proof. unfold bind. now intros ->. Qed.

Lemma bind_Raise {A B : Type} (m : M A) (k : A -> M B) (w w' : world)
    (e : exn) :
  m w = Raise e w' -> bind m k w = Raise e w'.
Proof. unfold bind. now intros ->. Qed.

Lemma for_each_app {A : Type} (l1 l2 : list A) (body : A -> M unit)
    (w : world) :
  for_each (l1 ++ l2) body w = (for_each l1 body ;; for_each l2 body) w.
Proof.
  revert w; induction l1 as [|x l1 IH]; intros w; simpl; [reflexivity|].
  unfold bind. destruct (body x w) as [[] w'|e w']; [|reflexivity].
  rewrite IH. reflexivity.
Qed.

Lemma keeps_ret {A : Type} (I : world -> Prop) (a : A) : keeps I (ret a).
Proof. intros w H. exact H. Qed.

Lemma keeps_raise {A : Type} (I : world -> Prop) (e : exn) :
  keeps I (@raise A e).
Proof. intros w H. exact H. Qed.

Lemma keeps_bind {A B : Type} (I : world -> Prop) (m : M A) (k : A -> M B) :
  keeps I m -> (forall a, keeps I (k a)) -> keeps I (bind m k).
Proof.
  intros Hm Hk w H. unfold bind. specialize (Hm w H).
  destruct (m w) as [a w'|e w']; simpl in *; [now apply Hk | exact Hm].
Qed.

Lemma keeps_try_except {A : Type} (I : world -> Prop) (m : M A)
    (h : exn -> M A) :
  keeps I m -> (forall e, keeps I (h e)) -> keeps I (try_except m h).
Proof.
  intros Hm Hh w H. unfold try_except. specialize (Hm w H).
  destruct (m w) as [a w'|e w']; simpl in *; [exact Hm | now apply Hh].
Qed.

Lemma keeps_for_each {A : Type} (I : world -> Prop) (l : list A)
    (body : A -> M unit) :
  (forall x, In x l -> keeps I (body x)) -> keeps I (for_each l body).
Proof.
  induction l as [|x l IH]; intros Hb; simpl.
  - apply keeps_ret.
  - apply keeps_bind.
    + apply Hb. now left.
    + intros _. apply IH. intros y Hy. apply Hb. now right.
Qed.

Lemma keeps_pass_file_exists (I : world -> Prop) (m : M unit) :
  keeps I m -> keeps I (pass_file_exists m).
Proof.
  intros Hm w H. unfold pass_file_exists. specialize (Hm w H).
  destruct (m w) as [a w'|[] w']; exact Hm.
Qed.

Lemma keeps_print (p : path) (x : node) (line : string) :
  keeps (holds p x) (print line).
Proof. intros w H. exact H. Qed.

Lemma keeps_exists (I : world -> Prop) (q : path) : keeps I (os_path_exists q).
Proof. intros w H. exact H. Qed.

Lemma keeps_isdir (I : world -> Prop) (q : path) : keeps I (os_path_isdir q).
Proof. intros w H. exact H. Qed.

Lemma keeps_get_fs (I : world -> Prop) : keeps I get_fs.
Proof. intros w H. exact H. Qed.

Lemma keeps_listdir (I : world -> Prop) (q : path) : keeps I (os_listdir q).
Proof.
  intros w H. unfold os_listdir. destruct (lookup (fs w) q) as [[]|]; exact H.
Qed.

Lemma keeps_mkdir (p q : path) (x : node) : keeps (holds p x) (os_mkdir q).
Proof.
  intros w H. unfold os_mkdir, bind, check_parent, os_path_exists, get_fs,
    set_fs, raise.
  destruct (lookup (fs w) (parent q)) as [[]|]; simpl; try exact H.
  destruct (exists_in (fs w) q); simpl; [exact H|].
  now apply lookup_app_Some.
Qed.

Lemma keeps_makedirs_rev (p : path) (x : node) (ok : bool)
    (rname : list string) :
  keeps (holds p x) (makedirs_rev ok rname).
Proof.
  induction rname as [|tail rhead IH]; simpl.
  - apply keeps_bind; [apply keeps_ret | intros _].
    apply keeps_try_except; [apply keeps_mkdir | intros e].
    apply keeps_bind; [apply keeps_isdir | intros d].
    destruct (ok && d); [apply keeps_ret | apply keeps_raise].
  - apply keeps_bind.
    + destruct rhead as [|h rhead']; [apply keeps_ret|].
      apply keeps_bind; [apply keeps_exists | intros e].
      destruct e; [apply keeps_ret | now apply keeps_pass_file_exists].
    + intros _.
      apply keeps_try_except; [apply keeps_mkdir | intros e].
      apply keeps_bind; [apply keeps_isdir | intros d].
      destruct (ok && d); [apply keeps_ret | apply keeps_raise].
Qed.

Lemma keeps_makedirs (p : path) (x : node) (name : path) (ok : bool) :
  keeps (holds p x) (os_makedirs name ok).
Proof. apply keeps_makedirs_rev. Qed.

Lemma keeps_rename (p : path) (x : node) (src dst : path) :
  p <> dst -> p <> src ->
  under src p = false \/ under src dst = true ->
  keeps (holds p x) (os_rename src dst).
Proof.
  intros Hd Hs Hu w H. unfold os_rename.
  destruct (lookup (fs w) src) as [n|]; [|exact H].
  destruct (lookup (fs w) (parent dst)) as [[]|]; try exact H.
  destruct (path_eqb src dst); [exact H|].
  destruct n as [d|].
  - destruct (lookup (fs w) dst) as [[]|]; try exact H;
      unfold holds; simpl; apply lookup_app_Some;
      rewrite !lookup_remove_path by assumption; exact H.
  - destruct (under src dst) eqn:Hsd; [exact H|].
    destruct Hu as [Hu|Hu]; [|discriminate].
    destruct (lookup (fs w) dst) as [[]|]; try exact H.
    + destruct (existsb _ (fs w)); [exact H|].
      unfold holds, move_subtree; simpl. apply lookup_app_Some.
      rewrite lookup_filter_under, lookup_remove_path by assumption. exact H.
    + unfold holds, move_subtree; simpl. apply lookup_app_Some.
      rewrite lookup_filter_under by assumption. exact H.
Qed.

Lemma keeps_copy2 (p : path) (x : node) (src dst : path) :
  p <> dst -> keeps (holds p x) (copy2 src dst).
Proof.
  intros Hd w H. unfold copy2.
  destruct (lookup (fs w) src) as [[]|]; try exact H.
  destruct (path_eqb src dst); [exact H|].
  destruct (lookup (fs w) (parent dst)) as [[]|]; try exact H.
  destruct (lookup (fs w) dst) as [[]|]; try exact H;
    unfold holds; simpl; apply lookup_app_Some;
    rewrite lookup_remove_path by assumption; exact H.
Qed.

Lemma keeps_unlink (p : path) (x : node) (q : path) :
  p <> q -> keeps (holds p x) (os_unlink q).
Proof.
  intros Hq w H. unfold os_unlink.
  destruct (lookup (fs w) q) as [[]|]; try exact H.
  unfold holds; simpl. rewrite lookup_remove_path by assumption. exact H.
Qed.

Lemma keeps_copytree (p : path) (x : node) (src dst : path) :
  keeps (holds p x) (copytree src dst).
Proof.
  unfold copytree. apply keeps_bind; [apply keeps_makedirs | intros _].
  intros w H. unfold bind, get_fs, set_fs; simpl.
  now apply lookup_app_Some.
Qed.

Lemma keeps_rmtree (p : path) (x : node) (q : path) :
  under q p = false -> keeps (holds p x) (rmtree q).
Proof.
  intros Hq w H. unfold rmtree, bind, get_fs, set_fs, holds; simpl.
  rewrite lookup_filter_under by assumption. exact H.
Qed.

Lemma keeps_move_fallback (p : path) (x : node) (src dst real_dst : path) :
  p <> real_dst -> p <> src ->
  under src p = false \/ under src dst = true ->
  keeps (holds p x) (move_fallback src dst real_dst).
Proof.
  intros Hd Hs Hu. unfold move_fallback.
  apply keeps_bind; [apply keeps_isdir | intros d]. destruct d.
  - destruct (under src dst) eqn:Hsd; [apply keeps_raise|].
    destruct Hu as [Hu|Hu]; [|discriminate].
    apply keeps_bind; [apply keeps_copytree | intros _].
    now apply keeps_rmtree.
  - apply keeps_bind; [now apply keeps_copy2 | intros _].
    now apply keeps_unlink.
Qed.

(** A node survives a move unless it is the source, lies in the moved
    directory, or sits where the moved file arrives. *)
Lemma keeps_shutil_move (p : path) (x : node) (src dst : path) :
  p <> dst -> p <> dst ++ [basename src] -> p <> src ->
  under src p = false \/ under src dst = true ->
  keeps (holds p x) (shutil_move src dst).
Proof.
  intros Hd Hb Hs Hu. unfold shutil_move.
  apply keeps_bind; [apply keeps_isdir | intros d]. destruct d.
  - destruct (path_eqb src dst); [now apply keeps_rename|].
    apply keeps_bind; [apply keeps_exists | intros e].
    destruct e; [apply keeps_raise|].
    assert (Hu' : under src p = false
                  \/ under src (dst ++ [basename src]) = true).
    { destruct Hu as [Hu|Hu]; [now left | right].
      apply (under_trans _ dst); [exact Hu | apply under_app]. }
    apply keeps_try_except; [now apply keeps_rename | intros _].
    now apply keeps_move_fallback.
  - apply keeps_try_except; [now apply keeps_rename | intros _].
    now apply keeps_move_fallback.
Qed.

(** Moving a regular file to a place inside an existing directory where
    no directory sits. *)
Lemma shutil_move_file (src dst : path) (d : N) (w : world) :
  lookup (fs w) src = Some (File d) ->
  lookup (fs w) (parent dst) = Some Dir ->
  isdir_in (fs w) dst = false ->
  src <> dst ->
  shutil_move src dst w
  = Ok tt (mkWorld (remove_path dst (remove_path src (fs w)) ++ [(dst, File d)])
                   (stdout w)).
Proof.
  intros Hs Hp Hd Hne.
  unfold shutil_move, bind, os_path_isdir, try_except, os_rename.
  cbv zeta. rewrite Hd, Hs, Hp, (path_eqb_neq _ _ Hne).
  unfold isdir_in in Hd.
  destruct (lookup (fs w) dst) as [[]|]; try reflexivity. discriminate.
Qed.

Lemma shutil_move_same (src : path) (d : N) (w : world) :
  lookup (fs w) src = Some (File d) ->
  lookup (fs w) (parent src) = Some Dir ->
  shutil_move src src w = Ok tt w.
Proof.
  intros Hs Hp.
  unfold shutil_move, bind, os_path_isdir, try_except, os_rename, isdir_in.
  cbv beta iota zeta. rewrite Hs. cbv beta iota.
  rewrite Hs, Hp, path_eqb_refl. reflexivity.
Qed.

Lemma makedirs_rev_child (r : list string) (c : string) (w : world) :
  lookup (fs w) (rev r) = Some Dir ->
  lookup (fs w) (rev (c :: r)) = None ->
  makedirs_rev false (c :: r) w
  = Ok tt (mkWorld (fs w ++ [(rev (c :: r), Dir)]) (stdout w)).
Proof.
  intros Ht Hc.
  assert (Hmk : os_mkdir (rev (c :: r)) w
                = Ok tt (mkWorld (fs w ++ [(rev (c :: r), Dir)]) (stdout w))).
  { simpl rev in *.
    unfold os_mkdir, bind, check_parent, os_path_exists, exists_in, get_fs,
      set_fs. rewrite parent_snoc, Ht, Hc. reflexivity. }
  destruct r as [|h r]; cbn [makedirs_rev].
  - unfold bind, ret, try_except. now rewrite Hmk.
  - unfold bind, os_path_exists, exists_in. rewrite Ht.
    unfold ret, try_except. now rewrite Hmk.
Qed.

Lemma makedirs_child (target : path) (c : string) (w : world) :
  lookup (fs w) target = Some Dir ->
  lookup (fs w) (target ++ [c]) = None ->
  os_makedirs (target ++ [c]) false w
  = Ok tt (mkWorld (fs w ++ [(target ++ [c], Dir)]) (stdout w)).
Proof.
  intros Ht Hc. unfold os_makedirs. rewrite rev_app_distr. simpl app.
  rewrite makedirs_rev_child.
  - simpl rev. now rewrite rev_involutive.
  - now rewrite rev_involutive.
  - simpl rev. now rewrite rev_involutive.
Qed.

(** ** The sorter runs its script *)

Lemma skipn_cons_nth {A : Type} (d : A) (l : list A) (i : nat) :
  i < List.length l -> skipn i l = nth i l d :: skipn (S i) l.
Proof.
  revert i; induction l as [|x l IH]; intros i Hi; simpl in Hi; [lia|].
  destruct i as [|i]; [reflexivity|]. simpl. apply IH. lia.
Qed.

Lemma move_frames_script (source target : path) (prefix : string)
    (l : list frame) (i : nat) (w : world) :
  move_frames source target prefix i l w
  = run_script source target
      (frames_script prefix (skipn i categories) l) w.
Proof.
  revert i w; induction l as [|[number filename] l IH]; intros i w;
    [reflexivity|].
  cbn [move_frames frames_script].
  destruct (Nat.leb_spec (List.length categories) i) as [Hi|Hi].
  - rewrite skipn_all2 by exact Hi. reflexivity.
  - rewrite (skipn_cons_nth "" categories i Hi). fold (category i).
    unfold run_script. cbn [for_each run_action]. unfold bind.
    destruct (shutil_move _ _ w) as [[] w1|e w1]; [|reflexivity].
    destruct (print _ w1) as [[] w2|e w2]; [|reflexivity].
    apply IH.
Qed.

Lemma process_group_script (source target : path) (g : string * list frame)
    (w : world) :
  process_group source target g w = run_script source target (group_script g) w.
Proof.
  unfold process_group, group_script, run_script. rewrite for_each_app.
  destruct (negb _); unfold bind; cbn [for_each run_action print ret];
    unfold bind, print, ret;
    apply (move_frames_script source target (fst g) _ 0).
Qed.

Lemma process_groups_script (source target : path) (groups : group_dict)
    (w : world) :
  for_each groups (process_group source target) w
  = run_script source target (flat_map group_script groups) w.
Proof.
  revert w; induction groups as [|g groups IH]; intros w; [reflexivity|].
  cbn [for_each flat_map]. unfold run_script. rewrite for_each_app.
  unfold bind. rewrite process_group_script. unfold run_script.
  destruct (for_each (group_script g) _ w) as [[] w1|e w1]; [|reflexivity].
  apply IH.
Qed.

(** The sorter, once the listing has succeeded. *)
Lemma sorter_unfold (source target : path) (w : world) :
  lookup (fs w) source = Some Dir ->
  sort_golf_swing_images source target w
  = (for_each categories (make_category_dir target) ;;
     run_script source target (sorter_script (entries source (fs w)))) w.
Proof.
  intros Hs. unfold sort_golf_swing_images, bind, os_listdir. rewrite Hs.
  destruct (for_each categories _ w) as [[] w1|e w1]; [|reflexivity].
  apply process_groups_script.
Qed.

Lemma sorter_listing_fails (source target : path) (w : world) :
  lookup (fs w) source <> Some Dir ->
  final_world (sort_golf_swing_images source target w) = w.
Proof.
  intros Hs. unfold sort_golf_swing_images, bind, os_listdir.
  destruct (lookup (fs w) source) as [[]|]; try reflexivity. congruence.
Qed.

(** ** Creating the category directories *)

Lemma keeps_make_category_dir (p : path) (x : node) (target : path)
    (c : string) :
  keeps (holds p x) (make_category_dir target c).
Proof.
  unfold make_category_dir.
  apply keeps_bind; [apply keeps_exists | intros e].
  destruct (negb e); [apply keeps_makedirs | apply keeps_ret].
Qed.

Lemma lookup_snoc (f : filesystem) (q p : path) (n : node) :
  lookup (f ++ [(q, n)]) p
  = match lookup f p with
    | Some x => Some x
    | None => if path_eqb q p then Some n else None
    end.
Proof.
  destruct p as [|a p]; [reflexivity|]. simpl. rewrite assoc_app. reflexivity.
Qed.

Lemma make_category_dirs_spec (target : path) (cats : list string)
    (w : world) :
  lookup (fs w) target = Some Dir ->
  forallb (fun c => negb (is_file_in (fs w) (target ++ [c]))) cats = true ->
  exists f',
    for_each cats (make_category_dir target) w = Ok tt (mkWorld f' (stdout w))
    /\ forall p, lookup f' p = dirs_made target cats (fs w) p.
Proof.
  revert w; induction cats as [|c cats IH]; intros w Ht Hc.
  - exists (fs w). split; [now destruct w | reflexivity].
  - cbn [forallb] in Hc. apply andb_true_iff in Hc as [Hc Hcs].
    assert (Hstep : exists f1,
               make_category_dir target c w = Ok tt (mkWorld f1 (stdout w))
               /\ forall p, lookup f1 p
                            = if path_eqb (target ++ [c]) p then Some Dir
                              else lookup (fs w) p).
    { unfold make_category_dir, bind, os_path_exists, exists_in.
      unfold is_file_in in Hc.
      destruct (lookup (fs w) (target ++ [c])) as [[d|]|] eqn:E;
        cbn [negb]; try discriminate.
      - exists (fs w). split; [now destruct w|]. intros p.
        destruct (path_eqb_spec (target ++ [c]) p) as [<-|]; congruence.
      - rewrite makedirs_child by assumption. eexists. split; [reflexivity|].
        intros p. rewrite lookup_snoc.
        destruct (path_eqb_spec (target ++ [c]) p) as [<-|]; [now rewrite E|].
        now destruct (lookup (fs w) p). }
    destruct Hstep as (f1 & Hrun & Hf1).
    destruct (IH (mkWorld f1 (stdout w))) as (f' & Hrun' & Hf').
    + cbn [fs]. rewrite Hf1, path_eqb_neq; [exact Ht|].
      intros E. apply (f_equal (@List.length string)) in E.
      rewrite length_app in E. simpl in E. lia.
    + cbn [fs]. apply forallb_forall. intros c' Hc'.
      rewrite forallb_forall in Hcs. specialize (Hcs c' Hc').
      unfold is_file_in in *. rewrite Hf1.
      destruct (path_eqb _ _); [reflexivity | exact Hcs].
    + exists f'. split.
      * cbn [for_each]. unfold bind. rewrite Hrun. exact Hrun'.
      * intros p. rewrite Hf'. unfold dirs_made. cbn [existsb fs].
        rewrite Hf1.
        destruct (existsb _ cats); [now rewrite orb_true_r|].
        rewrite orb_false_r. reflexivity.
Qed.

(** ** What a script leaves untouched *)

Lemma In_moves (f c : string) (s : list action) :
  In (f, c) (moves s) <-> In (Move f c) s.
Proof.
  induction s as [|[l|f' c'] s IH]; simpl.
  - reflexivity.
  - rewrite IH. split; [now right | intros [H|H]; [discriminate | exact H]].
  - rewrite IH. split; (intros [H|H]; [left; congruence | now right]).
Qed.

Lemma keeps_run_script (p : path) (x : node) (source target : path)
    (s : list action) :
  (forall f c, In (f, c) (moves s) ->
     p <> target ++ [c; f]
     /\ p <> (target ++ [c; f]) ++ [f]
     /\ p <> source ++ [f]
     /\ (under (source ++ [f]) p = false
         \/ under (source ++ [f]) (target ++ [c; f]) = true)) ->
  keeps (holds p x) (run_script source target s).
Proof.
  intros H. apply keeps_for_each. intros [l|f c] Ha; simpl.
  - apply keeps_print.
  - apply In_moves in Ha. destruct (H f c Ha) as (H1 & H2 & H3 & H4).
    apply keeps_shutil_move; try assumption.
    now rewrite basename_snoc.
Qed.

Lemma last_component (d d' : path) (x x' : string) :
  d ++ [x] = d' ++ [x'] -> x = x'.
Proof. intros H. now apply snoc_inj in H. Qed.

Lemma two_components (t : path) (c f : string) :
  t ++ [c; f] = (t ++ [c]) ++ [f].
Proof. now rewrite <- app_assoc. Qed.

(** A listed name that no move names stays where it is. *)
Lemma keeps_unmoved (n : string) (x : node) (source target : path)
    (s : list action) :
  ~ In n (map fst (moves s)) ->
  keeps (holds (source ++ [n]) x) (run_script source target s).
Proof.
  intros Hn. apply keeps_run_script. intros f c Hfc.
  assert (Hne : n <> f).
  { intros ->. apply Hn. apply in_map_iff. now exists (f, c). }
  repeat split.
  - rewrite two_components. intros E. now apply last_component in E.
  - intros E. now apply last_component in E.
  - intros E. now apply last_component in E.
  - left.
    destruct (under (source ++ [f]) (source ++ [n])) eqn:U; [|reflexivity].
    apply under_same_length in U.
    + now apply last_component in U.
    + now rewrite !length_app.
Qed.

(** A path just below the target that no moved file is named after stays
    as it is. *)
Lemma keeps_target_child (c0 : string) (x : node) (source target : path)
    (s : list action) :
  (forall f c, In (f, c) (moves s) -> f <> c0) ->
  keeps (holds (target ++ [c0]) x) (run_script source target s).
Proof.
  intros Hn. apply keeps_run_script. intros f c Hfc.
  specialize (Hn f c Hfc).
  repeat split.
  - intros E. apply (f_equal (@List.length string)) in E.
    rewrite !length_app in E. simpl in E. lia.
  - intros E. apply (f_equal (@List.length string)) in E.
    rewrite !length_app in E. simpl in E. lia.
  - intros E. apply last_component in E. congruence.
  - destruct (under (source ++ [f]) (target ++ [c0])) eqn:U; [right | now left].
    apply under_iff in U as [r Hr].
    destruct (exists_last (l := r)) as (r' & y & ->).
    + intros ->. rewrite app_nil_r in Hr. apply last_component in Hr.
      congruence.
    + rewrite app_assoc in Hr. apply snoc_inj in Hr as [-> _].
      apply under_iff. exists (r' ++ [c; f]). now rewrite <- !app_assoc.
Qed.

(** ** What a script does on ordinary inputs *)

Lemma move_one (source target : path) (f c : string) (w : world) :
  movable source target (fs w) (f, c) ->
  exists f1,
    shutil_move (source ++ [f]) (target ++ [c; f]) w
    = Ok tt (mkWorld f1 (stdout w))
    /\ forall p, lookup f1 p
                 = if path_eqb (target ++ [c; f]) p
                   then lookup (fs w) (source ++ [f])
                   else if path_eqb (source ++ [f]) p then None
                        else lookup (fs w) p.
Proof.
  intros (Hf & Hc & Hd). cbn [fst snd] in *. unfold is_file_in in Hf.
  destruct (lookup (fs w) (source ++ [f])) as [[d|]|] eqn:E; try discriminate.
  destruct (path_eqb_spec (source ++ [f]) (target ++ [c; f])) as [Heq|Hne].
  - exists (fs w). split.
    + rewrite <- Heq, shutil_move_same with (d := d);
        [now destruct w | exact E|].
      rewrite Heq, two_components, parent_snoc. exact Hc.
    + intros p. rewrite <- Heq.
      destruct (path_eqb_spec (source ++ [f]) p) as [<-|]; congruence.
  - eexists. split.
    + apply shutil_move_file with (d := d); try assumption.
      rewrite two_components, parent_snoc. exact Hc.
    + intros p. rewrite lookup_snoc.
      assert (Hd0 : target ++ [c; f] <> []) by (now destruct target).
      assert (Hs0 : source ++ [f] <> []) by apply snoc_not_nil.
      destruct (path_eqb_spec (target ++ [c; f]) p) as [<-|Hp].
      * now rewrite lookup_remove_path_same.
      * rewrite lookup_remove_path by congruence.
        destruct (path_eqb_spec (source ++ [f]) p) as [<-|Hp'].
        -- now rewrite lookup_remove_path_same.
        -- rewrite lookup_remove_path by congruence.
           now destruct (lookup (fs w) p).
Qed.

Lemma find_all_false {A : Type} (test : A -> bool) (l : list A) :
  (forall x, In x l -> test x = false) -> find test l = None.
Proof.
  induction l as [|x l IH]; intros H; simpl; [reflexivity|].
  rewrite (H x (or_introl eq_refl)). apply IH. intros y Hy. apply H. now right.
Qed.

Lemma run_script_regular (source target : path) (s : list action)
    (w : world) :
  NoDup (map fst (moves s)) ->
  (forall m, In m (moves s) -> movable source target (fs w) m) ->
  exists f',
    run_script source target s w = Ok tt (mkWorld f' (stdout w ++ lines s))
    /\ forall p, lookup f' p = after_moves source target (moves s) (fs w) p.
Proof.
  revert w; induction s as [|[l|f c] s IH]; intros w Hnd Hmv.
  - exists (fs w). split; [|reflexivity].
    cbn. rewrite app_nil_r. now destruct w.
  - destruct (IH (mkWorld (fs w) (stdout w ++ [l])) Hnd Hmv) as (f' & Hr & Hl).
    exists f'. split; [|exact Hl].
    unfold run_script in *. cbn [for_each run_action]. unfold bind, print.
    rewrite Hr. cbn [stdout lines]. now rewrite <- app_assoc.
  - cbn [moves map fst] in Hnd. inversion Hnd as [|? ? Hnotin Hnd']; subst.
    destruct (move_one source target f c w) as (f1 & Hrun & Hf1);
      [apply Hmv; now left|].
    assert (Hother : forall m, In m (moves s) ->
              fst m <> f).
    { intros m Hm E. apply Hnotin. rewrite <- E. now apply in_map. }
    assert (Hsrc : forall m, In m (moves s) ->
              lookup f1 (source ++ [fst m])
              = lookup (fs w) (source ++ [fst m])).
    { intros m Hm. specialize (Hother m Hm). rewrite Hf1.
      rewrite !path_eqb_neq; [reflexivity| |].
      - intros E. apply last_component in E. congruence.
      - rewrite two_components. intros E. apply last_component in E.
        congruence. }
    destruct (IH (mkWorld f1 (stdout w)) Hnd') as (f' & Hr & Hl).
    { intros m Hm. cbn [fs].
      destruct (Hmv m (or_intror Hm)) as (Hf & Hc & Hd).
      specialize (Hother m Hm). repeat split.
      - unfold is_file_in in *. now rewrite Hsrc.
      - rewrite Hf1. rewrite path_eqb_neq.
        + destruct (path_eqb_spec (source ++ [f]) (target ++ [snd m])) as [E|];
            [|exact Hc].
          destruct (Hmv (f, c) (or_introl eq_refl)) as (Hf0 & _).
          cbn [fst] in Hf0. unfold is_file_in in Hf0.
          rewrite E, Hc in Hf0. discriminate.
        + intros E. apply (f_equal (@List.length string)) in E.
          rewrite !length_app in E. simpl in E. lia.
      - unfold isdir_in in *. rewrite Hf1.
        rewrite path_eqb_neq.
        + destruct (path_eqb _ _); [reflexivity | exact Hd].
        + rewrite !two_components. intros E. apply last_component in E.
          congruence. }
    exists f'. split.
    + unfold run_script in *. cbn [for_each run_action]. unfold bind.
      rewrite Hrun. exact Hr.
    + intros p. rewrite Hl. unfold after_moves.
      cbn [moves find existsb fst snd fs].
      destruct (path_eqb_spec (target ++ [c; f]) p) as [<-|Hp].
      * assert (Hfind : find (fun m => path_eqb (target ++ [snd m; fst m])
                                                (target ++ [c; f])) (moves s)
                        = None).
        { apply find_all_false. intros m Hm. apply path_eqb_neq.
          rewrite !two_components. intros E. apply last_component in E.
          now apply (Hother m Hm). }
        assert (Hex : existsb (fun m => path_eqb (source ++ [fst m])
                                                 (target ++ [c; f])) (moves s)
                      = false).
        { apply not_true_is_false. intros Hex.
          apply existsb_exists in Hex as (m & Hm & E).
          destruct (path_eqb_spec (source ++ [fst m]) (target ++ [c; f]))
            as [E'|]; [|discriminate].
          rewrite two_components in E'. apply last_component in E'.
          now apply (Hother m Hm). }
        rewrite Hfind, Hex, Hf1, path_eqb_refl. reflexivity.
      * destruct (find _ (moves s)) as [m|] eqn:Hfind.
        -- apply find_some in Hfind as [Hm _]. now apply Hsrc.
        -- rewrite Hf1, (path_eqb_neq _ _ Hp).
           destruct (path_eqb (source ++ [f]) p); cbn [orb].
           ++ now destruct (existsb _ (moves s)).
           ++ reflexivity.
Qed.

(** ** Sorting by frame number *)

Lemma insert_frame_perm (x : frame) (l : list frame) :
  Permutation (insert_frame x l) (x :: l).
Proof.
  induction l as [|y l IH]; simpl; [reflexivity|].
  destruct (fst x <=? fst y)%Z; [reflexivity|].
  rewrite IH. apply perm_swap.
Qed.

Lemma sorted_by_number_perm (l : list frame) :
  Permutation (sorted_by_number l) l.
Proof.
  induction l as [|x l IH]; simpl; [reflexivity|].
  rewrite insert_frame_perm. now apply perm_skip.
Qed.

Lemma sorted_by_number_length (l : list frame) :
  List.length (sorted_by_number l) = List.length l.
Proof. apply Permutation_length, sorted_by_number_perm. Qed.

Lemma insert_frame_ascending (x : frame) (l : list frame) :
  StronglySorted Z.le (map fst l) ->
  StronglySorted Z.le (map fst (insert_frame x l)).
Proof.
  induction l as [|y l IH]; intros Hl; simpl.
  - repeat constructor.
  - inversion Hl as [|? ? Hl' Hy]; subst.
    destruct (Z.leb_spec (fst x) (fst y)) as [Hxy|Hxy]; simpl.
    + constructor; [exact Hl|]. constructor; [exact Hxy|].
      eapply Forall_impl; [|exact Hy]. intros z Hz. lia.
    + constructor; [now apply IH|].
      assert (Hp : Permutation (map fst (insert_frame x l))
                               (fst x :: map fst l))
        by (change (fst x :: map fst l) with (map fst (x :: l));
            apply Permutation_map, insert_frame_perm).
      eapply Permutation_Forall; [symmetry; exact Hp|].
      constructor; [lia | exact Hy].
Qed.

Lemma sorted_by_number_ascending (l : list frame) :
  StronglySorted Z.le (map fst (sorted_by_number l)).
Proof.
  induction l as [|x l IH]; simpl; [constructor|].
  now apply insert_frame_ascending.
Qed.

(** An ascending list is determined by its elements. *)
Lemma ascending_unique (a b : list Z) :
  StronglySorted Z.le a -> StronglySorted Z.le b -> Permutation a b -> a = b.
Proof.
  revert b; induction a as [|x a IH]; intros b Ha Hb Hp.
  - now apply Permutation_nil in Hp.
  - destruct b as [|y b];
      [apply Permutation_sym, Permutation_nil in Hp; discriminate|].
    inversion Ha as [|? ? Ha' Hx]; subst.
    inversion Hb as [|? ? Hb' Hy]; subst.
    assert (x = y).
    { assert (Hxin : In x (y :: b))
        by (eapply Permutation_in; [exact Hp | now left]).
      assert (Hyin : In y (x :: a))
        by (eapply Permutation_in; [symmetry; exact Hp | now left]).
      rewrite Forall_forall in Hx, Hy.
      destruct Hxin as [->|Hxin]; [reflexivity|].
      destruct Hyin as [->|Hyin]; [reflexivity|].
      specialize (Hx y Hyin). specialize (Hy x Hxin). lia. }
    subst y. f_equal. apply IH; try assumption.
    now apply Permutation_cons_inv in Hp.
Qed.

Lemma ascending_seq (n : nat) :
  StronglySorted Z.le (map Z.of_nat (seq 0 n)).
Proof.
  generalize 0. induction n as [|n IH]; intros s; simpl; [constructor|].
  constructor; [apply IH|].
  apply Forall_forall. intros z Hz. apply in_map_iff in Hz as (k & <- & Hk).
  apply in_seq in Hk. lia.
Qed.

(** A group whose frame numbers are [0 .. n-1] in some order is sorted
    into exactly that order. *)
Lemma sorted_numbers_seq (l : list frame) (n : nat) :
  Permutation (map fst l) (map Z.of_nat (seq 0 n)) ->
  map fst (sorted_by_number l) = map Z.of_nat (seq 0 n).
Proof.
  intros Hp. apply ascending_unique.
  - apply sorted_by_number_ascending.
  - apply ascending_seq.
  - rewrite <- Hp. apply Permutation_map, sorted_by_number_perm.
Qed.

Lemma sorted_nth_seq (l : list frame) (n i : nat) (f : string) :
  Permutation (map fst l) (map Z.of_nat (seq 0 n)) ->
  In (Z.of_nat i, f) l ->
  i < n /\ nth i (sorted_by_number l) (0%Z, "") = (Z.of_nat i, f).
Proof.
  intros Hp Hin.
  assert (Hs := sorted_numbers_seq l n Hp).
  assert (Hin' : In (Z.of_nat i, f) (sorted_by_number l))
    by (eapply Permutation_in;
        [symmetry; apply sorted_by_number_perm | exact Hin]).
  apply (In_nth _ _ (0%Z, "")) in Hin' as (j & Hj & Hnth).
  assert (Hlen : List.length (sorted_by_number l) = n).
  { apply (f_equal (@List.length Z)) in Hs.
    now rewrite !length_map, length_seq in Hs. }
  assert (Hfst : nth j (map fst (sorted_by_number l)) 0%Z = Z.of_nat i).
  { change 0%Z with (fst (0%Z, "")). now rewrite map_nth, Hnth. }
  rewrite Hs in Hfst.
  change 0%Z with (Z.of_nat 0) in Hfst. rewrite map_nth in Hfst.
  assert (Hjn : j < n) by (rewrite <- Hlen; exact Hj).
  rewrite seq_nth in Hfst by exact Hjn.
  assert (j = i) by lia. subst j. split; [exact Hjn | exact Hnth].
Qed.

(** ** The moves of a script *)

Lemma moves_app (a b : list action) : moves (a ++ b) = moves a ++ moves b.
Proof.
  induction a as [|[l|f c] a IH]; simpl; [reflexivity | exact IH|].
  now rewrite IH.
Qed.

Lemma lines_app (a b : list action) : lines (a ++ b) = lines a ++ lines b.
Proof.
  induction a as [|[l|f c] a IH]; simpl; [reflexivity | | exact IH].
  now rewrite IH.
Qed.

Lemma moves_frames_script (prefix : string) (cats : list string)
    (l : list frame) :
  moves (frames_script prefix cats l) = combine (map snd l) cats.
Proof.
  revert cats; induction l as [|[n f] l IH]; intros cats; [reflexivity|].
  destruct cats as [|c cats]; [reflexivity|]. simpl. now rewrite IH.
Qed.

Lemma moves_group_script (g : string * list frame) :
  moves (group_script g)
  = combine (map snd (sorted_by_number (snd g))) categories.
Proof.
  unfold group_script. rewrite moves_app, moves_frames_script.
  now destruct (negb _).
Qed.

Lemma moves_flat_map (groups : group_dict) :
  moves (flat_map group_script groups)
  = flat_map (fun g => moves (group_script g)) groups.
Proof.
  induction groups as [|g groups IH]; simpl; [reflexivity|].
  now rewrite moves_app, IH.
Qed.

Lemma lines_flat_map (groups : group_dict) :
  lines (flat_map group_script groups)
  = flat_map (fun g => lines (group_script g)) groups.
Proof.
  induction groups as [|g groups IH]; simpl; [reflexivity|].
  now rewrite lines_app, IH.
Qed.

Lemma combine_nth_In {A B : Type} (a : list A) (b : list B) (i : nat)
    (da : A) (db : B) :
  i < List.length a -> i < List.length b ->
  In (nth i a da, nth i b db) (combine a b).
Proof.
  revert b i; induction a as [|x a IH]; intros [|y b] i Ha Hb;
    simpl in *; try lia.
  destruct i as [|i]; [now left | right]. apply IH; lia.
Qed.

Lemma combine_In_nth {A B : Type} (a : list A) (b : list B) (x : A) (y : B)
    (da : A) (db : B) :
  In (x, y) (combine a b) ->
  exists i, i < List.length a /\ i < List.length b
            /\ nth i a da = x /\ nth i b db = y.
Proof.
  revert b; induction a as [|x0 a IH]; intros [|y0 b] H; simpl in *;
    try contradiction.
  destruct H as [[= -> ->]|H].
  - exists 0. repeat split; lia.
  - destruct (IH b H) as (i & Ha & Hb & Hx & Hy).
    exists (S i). repeat split; try lia; assumption.
Qed.

Lemma NoDup_combine_fst {A B : Type} (a : list A) (b : list B) :
  NoDup a -> NoDup (map fst (combine a b)).
Proof.
  revert b; induction a as [|x a IH]; intros b Ha; [constructor|].
  destruct b as [|y b]; [constructor|]. simpl.
  inversion Ha as [|? ? Hx Ha']; subst. constructor; [|now apply IH].
  intros Hin. apply Hx. apply in_map_iff in Hin as ([x' y'] & <- & Hin).
  now apply in_combine_l in Hin.
Qed.

(** ** Groups *)

Lemma groups_get_append (k P : string) (item : frame) (g : group_dict) :
  groups_get P (groups_append k item g)
  = if String.eqb k P
    then Some (frames_of P g ++ [item])
    else groups_get P g.
Proof.
  unfold frames_of. induction g as [|[k0 v] g IH]; simpl.
  - now destruct (String.eqb k P).
  - destruct (String.eqb_spec k0 k) as [->|Hk]; simpl.
    + now destruct (String.eqb k P).
    + rewrite IH. destruct (String.eqb_spec k P) as [->|HkP].
      * now rewrite (proj2 (String.eqb_neq k0 P) Hk).
      * reflexivity.
Qed.

Lemma frames_of_step (P : string) (g : group_dict) (f : string) :
  frames_of P (group_step g f)
  = frames_of P g ++ (if prefix_is P f then [frame_of f] else []).
Proof.
  unfold group_step, prefix_is, frame_of.
  destruct (re_match f) as [[k number]|]; [|now rewrite app_nil_r].
  unfold frames_of at 1. rewrite groups_get_append.
  destruct (String.eqb k P); [reflexivity | now rewrite app_nil_r].
Qed.

Lemma frames_of_fold (P : string) (files : list string) (g : group_dict) :
  frames_of P (fold_left group_step files g) = frames_of P g ++ members P files.
Proof.
  revert g; induction files as [|f files IH]; intros g; simpl.
  - unfold members. simpl. now rewrite app_nil_r.
  - rewrite IH, frames_of_step, <- app_assoc. f_equal.
    unfold members. simpl. now destruct (prefix_is P f).
Qed.

Lemma group_of_members (P : string) (listing : list string) :
  group_of P listing = members P (jpg_files listing).
Proof.
  unfold group_of. fold (frames_of P (build_groups (jpg_files listing))).
  unfold build_groups. now rewrite frames_of_fold.
Qed.

Lemma In_keys_append (k k' : string) (item : frame) (g : group_dict) :
  In k' (map fst (groups_append k item g)) <-> k' = k \/ In k' (map fst g).
Proof.
  induction g as [|[k0 v] g IH]; simpl.
  - intuition congruence.
  - destruct (String.eqb_spec k0 k) as [->|Hk]; simpl.
    + intuition congruence.
    + rewrite IH. intuition congruence.
Qed.

Lemma NoDup_keys_append (k : string) (item : frame) (g : group_dict) :
  NoDup (map fst g) -> NoDup (map fst (groups_append k item g)).
Proof.
  induction g as [|[k0 v] g IH]; intros Hg; simpl.
  - repeat constructor. intros [].
  - inversion Hg as [|? ? Hk0 Hg']; subst.
    destruct (String.eqb_spec k0 k) as [->|Hk]; simpl.
    + now constructor.
    + constructor; [|now apply IH].
      rewrite In_keys_append. intros [->|H]; [congruence | contradiction].
Qed.

Lemma NoDup_keys_fold (files : list string) (g : group_dict) :
  NoDup (map fst g) -> NoDup (map fst (fold_left group_step files g)).
Proof.
  revert g; induction files as [|f files IH]; intros g Hg; simpl; [exact Hg|].
  apply IH. unfold group_step.
  destruct (re_match f) as [[k number]|]; [|exact Hg].
  now apply NoDup_keys_append.
Qed.

Lemma NoDup_keys_build (files : list string) :
  NoDup (map fst (build_groups files)).
Proof. apply NoDup_keys_fold. constructor. Qed.

Lemma groups_get_In (k : string) (v : list frame) (g : group_dict) :
  NoDup (map fst g) -> In (k, v) g -> groups_get k g = Some v.
Proof.
  induction g as [|[k0 v0] g IH]; intros Hg Hin; simpl; [contradiction|].
  inversion Hg as [|? ? Hk0 Hg']; subst.
  destruct Hin as [[= -> ->]|Hin]; [now rewrite String.eqb_refl|].
  destruct (String.eqb_spec k0 k) as [->|Hk]; [|now apply IH].
  exfalso. apply Hk0. apply in_map_iff. now exists (k, v).
Qed.

Lemma In_groups_get (k : string) (v : list frame) (g : group_dict) :
  groups_get k g = Some v -> In (k, v) g.
Proof.
  induction g as [|[k0 v0] g IH]; simpl; [discriminate|].
  destruct (String.eqb_spec k0 k) as [->|Hk].
  - intros [= ->]. now left.
  - intros H. right. now apply IH.
Qed.

Lemma In_build_groups (k : string) (v : list frame) (files : list string) :
  In (k, v) (build_groups files) -> v = members k files.
Proof.
  intros Hin. apply groups_get_In in Hin; [|apply NoDup_keys_build].
  assert (H := frames_of_fold k files []). fold (build_groups files) in H.
  unfold frames_of at 1 in H. rewrite Hin in H. exact H.
Qed.

Lemma members_names (k : string) (files : list string) :
  map snd (members k files) = filter (prefix_is k) files.
Proof.
  unfold members. rewrite map_map. simpl. apply map_id.
Qed.

Lemma prefix_is_grouped (k f : string) (listing : list string) :
  In f (filter (prefix_is k) (jpg_files listing)) ->
  In f listing /\ grouped f = true /\ prefix_is k f = true.
Proof.
  intros H. apply filter_In in H as [H Hk]. unfold jpg_files in H.
  apply filter_In in H as [H Hj]. repeat split; try assumption.
  unfold grouped. rewrite Hj. unfold prefix_is in Hk.
  now destruct (re_match f).
Qed.

Lemma prefix_is_unique (k k' f : string) :
  prefix_is k f = true -> prefix_is k' f = true -> k = k'.
Proof.
  unfold prefix_is. destruct (re_match f) as [[k0 n]|]; [|discriminate].
  rewrite !String.eqb_eq. congruence.
Qed.

(** ** The moves of the sorter's script *)

Lemma group_moves_names (k : string) (v : list frame) (f c : string) :
  In (f, c) (moves (group_script (k, v))) ->
  In f (map snd v) /\ In c categories.
Proof.
  rewrite moves_group_script. cbn [snd]. intros H. split.
  - apply in_combine_l in H.
    eapply Permutation_in; [|exact H].
    apply Permutation_map, sorted_by_number_perm.
  - now apply in_combine_r in H.
Qed.

Lemma In_moves_sorter (listing : list string) (f c : string) :
  In (f, c) (moves (sorter_script listing)) ->
  exists k,
    In (f, c) (moves (group_script (k, group_of k listing)))
    /\ prefix_is k f = true
    /\ In f listing /\ grouped f = true /\ In c categories.
Proof.
  unfold sorter_script. rewrite moves_flat_map. intros H.
  apply in_flat_map in H as ([k v] & Hg & H).
  apply In_build_groups in Hg. subst v. exists k.
  rewrite group_of_members. split; [exact H|].
  apply group_moves_names in H as [Hf Hc].
  rewrite members_names in Hf. apply prefix_is_grouped in Hf.
  tauto.
Qed.

Lemma group_moves_in_sorter (listing : list string) (k f c : string) :
  In (f, c) (moves (group_script (k, group_of k listing))) ->
  In (f, c) (moves (sorter_script listing)).
Proof.
  intros H. unfold sorter_script. rewrite moves_flat_map.
  apply in_flat_map. exists (k, group_of k listing). split; [|exact H].
  unfold group_of in *.
  destruct (groups_get k _) as [v|] eqn:E; [now apply In_groups_get|].
  rewrite moves_group_script in H. now cbn in H.
Qed.

Lemma NoDup_moves_groups (files : list string) (g : group_dict) :
  NoDup files -> NoDup (map fst g) ->
  (forall k v, In (k, v) g -> v = members k files) ->
  NoDup (map fst (flat_map (fun kv => moves (group_script kv)) g)).
Proof.
  intros Hf. induction g as [|[k v] g IH]; intros Hk Hv; [constructor|].
  cbn [flat_map]. rewrite map_app.
  inversion Hk as [|? ? Hknew Hk']; subst.
  assert (Hvk := Hv k v (or_introl eq_refl)).
  apply NoDup_app.
  - rewrite moves_group_script. apply NoDup_combine_fst. cbn [snd].
    eapply Permutation_NoDup;
      [apply Permutation_map, Permutation_sym, sorted_by_number_perm|].
    rewrite Hvk, members_names. now apply NoDup_filter.
  - apply IH; [exact Hk'|]. intros k' v' H. apply Hv. now right.
  - intros f Hin Hin'.
    apply in_map_iff in Hin as ([f1 c1] & <- & Hin). cbn [fst] in Hin'.
    apply group_moves_names in Hin as [Hin _].
    rewrite Hvk, members_names in Hin. apply filter_In in Hin as [_ Hp].
    apply in_map_iff in Hin' as ([f2 c2] & E & Hin'). cbn [fst] in E. subst f2.
    apply in_flat_map in Hin' as ([k' v'] & Hg & Hin').
    apply group_moves_names in Hin' as [Hin' _].
    rewrite (Hv k' v' (or_intror Hg)), members_names in Hin'.
    apply filter_In in Hin' as [_ Hp'].
    assert (k = k') by (eapply prefix_is_unique; eassumption). subst k'.
    apply Hknew. apply in_map_iff. now exists (k, v').
Qed.

Lemma NoDup_moves_sorter (listing : list string) :
  NoDup listing -> NoDup (map fst (moves (sorter_script listing))).
Proof.
  intros H. unfold sorter_script. rewrite moves_flat_map.
  apply NoDup_moves_groups with (files := jpg_files listing).
  - now apply NoDup_filter.
  - apply NoDup_keys_build.
  - intros k v. apply In_build_groups.
Qed.

(** ** Ordinary inputs *)

Lemma nodupb_NoDup (l : list string) : nodupb l = true -> NoDup l.
Proof.
  induction l as [|x l IH]; simpl; intros H; [constructor|].
  apply andb_true_iff in H as [Hx Hl]. constructor; [|now apply IH].
  intros Hin. apply negb_true_iff in Hx.
  assert (existsb (String.eqb x) l = true); [|congruence].
  apply existsb_exists. exists x. split; [exact Hin | apply String.eqb_refl].
Qed.

Lemma category_not_jpg (c : string) :
  In c categories -> endswith c ".jpg" = false.
Proof.
  intros H. repeat (destruct H as [<-|H]; [reflexivity|]). contradiction.
Qed.

Lemma NoDup_categories : NoDup categories.
Proof.
  repeat (constructor; [simpl; intuition discriminate|]). constructor.
Qed.

Lemma category_nth (i : nat) :
  i < List.length categories -> In (category i) categories.
Proof. intros H. now apply nth_In. Qed.

Lemma category_inj (i j : nat) :
  i < List.length categories -> j < List.length categories ->
  category i = category j -> i = j.
Proof.
  intros Hi Hj. apply (proj1 (NoDup_nth categories "") NoDup_categories);
    assumption.
Qed.

Lemma regular_spec (w : world) (source target : path) :
  regular w source target = true -> regular_facts w source target.
Proof.
  unfold regular. rewrite !andb_true_iff.
  intros ((((Hs & Ht) & Hn) & Hc) & Hf).
  rewrite forallb_forall in Hf.
  assert (Hf' : forall f, In f (entries source (fs w)) -> grouped f = true ->
            is_file_in (fs w) (source ++ [f]) = true
            /\ forallb (fun c => negb (isdir_in (fs w) (target ++ [c; f])))
                       categories = true).
  { intros f Hin Hg. specialize (Hf f Hin). rewrite Hg in Hf.
    now apply andb_true_iff in Hf. }
  unfold isdir_in in Hs, Ht.
  split.
  - now destruct (lookup (fs w) source) as [[]|].
  - now destruct (lookup (fs w) target) as [[]|].
  - now apply nodupb_NoDup.
  - exact Hc.
  - intros f Hin Hg. now apply Hf'.
  - intros f c Hin Hg Hc'. apply Hf' in Hin as [_ H]; [|exact Hg].
    rewrite forallb_forall in H. now apply negb_true_iff, H.
Qed.

Lemma dirs_made_file (target : path) (f0 : filesystem) (p : path) :
  forallb (fun c => negb (is_file_in f0 (target ++ [c]))) categories = true ->
  is_file_in f0 p = true ->
  dirs_made target categories f0 p = lookup f0 p.
Proof.
  intros Hc Hp. unfold dirs_made.
  destruct (existsb _ categories) eqn:E; [|reflexivity].
  apply existsb_exists in E as (c & Hin & E).
  destruct (path_eqb_spec (target ++ [c]) p) as [E'|]; [|discriminate].
  rewrite forallb_forall in Hc. specialize (Hc c Hin).
  rewrite E', Hp in Hc. discriminate.
Qed.

Lemma dirs_made_category (target : path) (f0 : filesystem) (c : string) :
  In c categories -> dirs_made target categories f0 (target ++ [c]) = Some Dir.
Proof.
  intros Hc. unfold dirs_made.
  assert (existsb (fun c0 => path_eqb (target ++ [c0]) (target ++ [c]))
                  categories = true) as ->; [|reflexivity].
  apply existsb_exists. exists c. split; [exact Hc | apply path_eqb_refl].
Qed.

Lemma dirs_made_deeper (target : path) (f0 : filesystem) (c f : string) :
  dirs_made target categories f0 (target ++ [c; f])
  = lookup f0 (target ++ [c; f]).
Proof.
  unfold dirs_made.
  destruct (existsb _ categories) eqn:E; [|reflexivity].
  apply existsb_exists in E as (c' & _ & E).
  destruct (path_eqb_spec (target ++ [c']) (target ++ [c; f])) as [E'|];
    [|discriminate].
  apply (f_equal (@List.length string)) in E'.
  rewrite !length_app in E'. simpl in E'. lia.
Qed.

Lemma find_dst (target : path) (ms : list (string * string))
    (c f : string) (m : string * string) :
  find (fun m => path_eqb (target ++ [snd m; fst m]) (target ++ [c; f])) ms
  = Some m ->
  In m ms /\ m = (f, c).
Proof.
  intros H. apply find_some in H as [Hin E]. split; [exact Hin|].
  destruct (path_eqb_spec (target ++ [snd m; fst m]) (target ++ [c; f]))
    as [E'|]; [|discriminate].
  apply app_inv_head in E'. destruct m. cbn in E'. congruence.
Qed.

Lemma NoDup_fst_functional (ms : list (string * string)) (f c c' : string) :
  NoDup (map fst ms) -> In (f, c) ms -> In (f, c') ms -> c = c'.
Proof.
  induction ms as [|[f0 c0] ms IH]; intros Hnd H1 H2; [contradiction|].
  cbn in Hnd. inversion Hnd as [|? ? Hnot Hnd']; subst.
  assert (Hfst : forall c1, In (f0, c1) ms -> False).
  { intros c1 Hc1. apply Hnot. apply in_map_iff. now exists (f0, c1). }
  destruct H1 as [[= -> ->]|H1], H2 as [[= <-]|H2].
  - reflexivity.
  - now apply Hfst in H2.
  - subst. now apply Hfst in H1.
  - now apply IH.
Qed.

(** On an ordinary input the sorter returns, having printed the lines of
    its script and carried out its moves. *)
Lemma sorter_regular (w : world) (source target : path) :
  regular w source target = true ->
  exists w',
    sort_golf_swing_images source target w = Ok tt w'
    /\ sorted_world source target w w'.
Proof.
  intros Hreg. apply regular_spec in Hreg as [Hs Ht Hl Hc Hf Hd].
  set (script := sorter_script (entries source (fs w))).
  destruct (make_category_dirs_spec target categories w Ht Hc)
    as (f1 & Hmk & Hf1).
  assert (Hsrc : forall f c, In (f, c) (moves script) ->
            is_file_in (fs w) (source ++ [f]) = true
            /\ lookup f1 (source ++ [f]) = lookup (fs w) (source ++ [f])).
  { intros f c Hin. apply In_moves_sorter in Hin as (k & _ & _ & Hin & Hg & _).
    assert (Hfile := Hf f Hin Hg). split; [exact Hfile|].
    rewrite Hf1. now apply dirs_made_file. }
  assert (Hnd : NoDup (map fst (moves script)))
    by now apply NoDup_moves_sorter.
  destruct (run_script_regular source target script (mkWorld f1 (stdout w)))
    as (f' & Hrun & Hf'); [exact Hnd | |].
  { intros [f c] Hin. destruct (Hsrc f c Hin) as [Hfile Heq].
    apply In_moves_sorter in Hin as (k & _ & _ & Hin & Hg & Hcat).
    repeat split; cbn [fst snd fs].
    - unfold is_file_in in *. now rewrite Heq.
    - rewrite Hf1. now apply dirs_made_category.
    - unfold isdir_in. rewrite Hf1, dirs_made_deeper.
      now apply Hd. }
  cbn [fs stdout] in Hrun, Hf'.
  exists (mkWorld f' (stdout w ++ lines script)). split.
  - rewrite sorter_unfold by exact Hs. unfold bind. rewrite Hmk. exact Hrun.
  - split; cbn [fs stdout]; fold script.
    + reflexivity.
    + intros f c Hin. destruct (Hsrc f c Hin) as [Hfile Heq].
      split; [exact Hfile|]. rewrite Hf'. unfold after_moves.
      destruct (find _ (moves script)) as [m|] eqn:E.
      * apply find_dst in E as [_ ->]. exact Heq.
      * apply find_none with (x := (f, c)) in E; [|exact Hin].
        cbn [fst snd] in E. now rewrite path_eqb_refl in E.
    + intros f c Hin Hne. rewrite Hf'. unfold after_moves.
      destruct (find _ (moves script)) as [m|] eqn:E.
      * exfalso. apply find_some in E as [Hm E].
        destruct (path_eqb_spec (target ++ [snd m; fst m]) (source ++ [f]))
          as [E'|]; [|discriminate].
        assert (fst m = f)
          by (rewrite two_components in E'; now apply last_component in E').
        destruct m as [f0 c0]. cbn [fst snd] in *. subst f0.
        assert (c0 = c) by (eapply NoDup_fst_functional; eassumption).
        subst c0. congruence.
      * assert (existsb (fun m => path_eqb (source ++ [fst m]) (source ++ [f]))
                        (moves script) = true) as ->; [|reflexivity].
        apply existsb_exists. exists (f, c). split; [exact Hin|].
        apply path_eqb_refl.
    + intros p Hp. rewrite Hf'. unfold after_moves.
      rewrite find_all_false.
      * assert (existsb (fun m => path_eqb (source ++ [fst m]) p)
                        (moves script) = false) as ->; [|apply Hf1].
        apply not_true_is_false. intros E.
        apply existsb_exists in E as ([f c] & Hin & E). cbn [fst] in E.
        destruct (path_eqb_spec (source ++ [f]) p) as [E'|]; [|discriminate].
        destruct (Hp f c Hin) as [H _]. congruence.
      * intros [f c] Hin. cbn [fst snd]. apply path_eqb_neq.
        destruct (Hp f c Hin) as [_ H]. congruence.
    + intros p d Hp. rewrite Hf' in Hp. unfold after_moves in Hp.
      destruct (find _ (moves script)) as [[f c]|] eqn:E.
      * right. apply find_some in E as [Hin E]. cbn [fst snd] in *.
        destruct (path_eqb_spec (target ++ [c; f]) p) as [E'|]; [|discriminate].
        exists f, c. repeat split; [exact Hin | congruence|].
        destruct (Hsrc f c Hin) as [_ Heq]. now rewrite <- Heq.
      * left. destruct (existsb _ (moves script)); [discriminate|].
        rewrite Hf1 in Hp. unfold dirs_made in Hp.
        destruct (existsb _ categories); [discriminate | exact Hp].
Qed.

(** ** The pattern *)

Lemma endswith_append (a b : string) : endswith (a ++ b)%string b = true.
Proof.
  induction a as [|c a IH]; cbn [append].
  - destruct b; cbn [endswith]; now rewrite String.eqb_refl.
  - cbn [endswith]. rewrite IH. now destruct (String.eqb (String c (a ++ b)) b).
Qed.

Lemma endswith_sound (s suffix : string) :
  endswith s suffix = true -> exists pre, s = (pre ++ suffix)%string.
Proof.
  induction s as [|c s IH]; cbn [endswith].
  - destruct (String.eqb_spec "" suffix) as [<-|]; [|discriminate].
    intros _. now exists "".
  - destruct (String.eqb_spec (String c s) suffix) as [<-|].
    + intros _. now exists "".
    + intros H. destruct (IH H) as [pre ->]. now exists (String c pre).
Qed.

Lemma startswith_append (p rest : string) :
  startswith p (p ++ rest)%string = true.
Proof.
  induction p as [|c p IH]; simpl; [reflexivity|].
  now rewrite Ascii.eqb_refl.
Qed.

Lemma startswith_sound (p s : string) :
  startswith p s = true -> exists rest, s = (p ++ rest)%string.
Proof.
  revert s; induction p as [|c p IH]; intros s H; simpl in *.
  - now exists s.
  - destruct s as [|b s]; [discriminate|].
    apply andb_true_iff in H as [Hc H]. apply Ascii.eqb_eq in Hc. subst b.
    destruct (IH s H) as [rest ->]. now exists rest.
Qed.

Lemma match_after_prefix_complete (digits rest : string) :
  String.length digits = 4 -> all_digits digits = true ->
  match_after_prefix ("_" ++ digits ++ ".jpg_vis_results.jpg" ++ rest)%string
  = Some digits.
Proof.
  intros Hlen Hd.
  destruct digits as [|d1 [|d2 [|d3 [|d4 [|d5 digits]]]]]; try discriminate.
  unfold all_digits in Hd. cbn [list_ascii_of_string forallb] in Hd.
  apply andb_true_iff in Hd as [H1 Hd]. apply andb_true_iff in Hd as [H2 Hd].
  apply andb_true_iff in Hd as [H3 Hd]. apply andb_true_iff in Hd as [H4 _].
  cbn [append match_after_prefix].
  change (String "." _) with (pattern_tail ++ rest)%string.
  now rewrite startswith_append, H1, H2, H3, H4.
Qed.

Lemma match_after_prefix_sound (s digits : string) :
  match_after_prefix s = Some digits ->
  exists rest,
    s = ("_" ++ digits ++ ".jpg_vis_results.jpg" ++ rest)%string
    /\ String.length digits = 4
    /\ all_digits digits = true.
Proof.
  unfold match_after_prefix.
  destruct s as [|u [|d1 [|d2 [|d3 [|d4 rest]]]]]; try discriminate;
    try (destruct u as [[] [] [] [] [] [] [] []]; discriminate).
  destruct (Ascii.eqb_spec u "_"%char) as [->|Hu].
  - destruct (is_digit d1 && is_digit d2 && is_digit d3 && is_digit d4
              && startswith pattern_tail rest) eqn:E; [|discriminate].
    intros [= <-]. apply andb_true_iff in E as [Hd Hs].
    apply startswith_sound in Hs as [rest' ->]. exists rest'.
    repeat split. unfold all_digits. cbn [list_ascii_of_string forallb].
    apply andb_true_iff in Hd as [Hd H4]. apply andb_true_iff in Hd as [Hd H3].
    apply andb_true_iff in Hd as [H1 H2]. now rewrite H1, H2, H3, H4.
  - destruct u as [[] [] [] [] [] [] [] []]; try discriminate.
    now contradiction Hu.
Qed.

Lemma re_match_complete (prefix digits rest : string) :
  prefix <> EmptyString ->
  no_line_feed prefix = true ->
  String.length digits = 4 -> all_digits digits = true ->
  re_match (prefix ++ "_" ++ digits ++ ".jpg_vis_results.jpg" ++ rest)%string
  <> None.
Proof.
  intros Hne Hlf Hlen Hd.
  induction prefix as [|c prefix IH]; [congruence|].
  unfold no_line_feed in Hlf. cbn [list_ascii_of_string forallb] in Hlf.
  apply andb_true_iff in Hlf as [Hc Hlf].
  cbn [append re_match]. rewrite Hc.
  destruct (match_after_prefix _) eqn:Em; [discriminate|].
  destruct prefix as [|c' prefix].
  - cbn [append] in *.
    pose proof (match_after_prefix_complete digits rest Hlen Hd) as H.
    cbn [append] in H. congruence.
  - destruct (re_match _) as [[p n]|] eqn:E; [discriminate|].
    exfalso. apply IH; [discriminate | exact Hlf | reflexivity].
Qed.

Lemma re_match_sound (name prefix digits : string) :
  re_match name = Some (prefix, digits) ->
  exists rest,
    name = (prefix ++ "_" ++ digits ++ ".jpg_vis_results.jpg" ++ rest)%string
    /\ prefix <> EmptyString
    /\ no_line_feed prefix = true
    /\ String.length digits = 4
    /\ all_digits digits = true.
Proof.
  revert prefix; induction name as [|c name IH]; intros prefix H;
    [discriminate|].
  cbn [re_match] in H. destruct (is_dot c) eqn:Hc; [|discriminate].
  destruct (match_after_prefix name) as [n|] eqn:E.
  - injection H as <- <-.
    apply match_after_prefix_sound in E as (rest & -> & Hlen & Hd).
    exists rest. repeat split; try assumption; [discriminate|].
    unfold no_line_feed. cbn. now rewrite Hc.
  - destruct (re_match name) as [[p n]|]; [|discriminate].
    injection H as <- <-.
    destruct (IH p eq_refl) as (rest & -> & Hne & Hlf & Hlen & Hd).
    exists rest. repeat split; try assumption; [discriminate|].
    unfold no_line_feed in *. cbn [list_ascii_of_string forallb].
    now rewrite Hc.
Qed.

Lemma re_match_plain_tail (prefix tail digits : string) :
  prefix <> EmptyString ->
  no_line_feed prefix = true ->
  no_underscore prefix = true ->
  match_after_prefix tail = Some digits ->
  re_match (prefix ++ tail)%string = Some (prefix, digits).
Proof.
  intros Hne Hlf Hu Htail.
  induction prefix as [|c prefix IH]; [congruence|].
  unfold no_line_feed in Hlf. cbn [list_ascii_of_string forallb] in Hlf.
  apply andb_true_iff in Hlf as [Hc Hlf].
  unfold no_underscore in Hu. cbn [list_ascii_of_string forallb] in Hu.
  apply andb_true_iff in Hu as [_ Hu].
  cbn [append re_match]. rewrite Hc.
  destruct prefix as [|c' prefix].
  - cbn [append]. now rewrite Htail.
  - destruct (match_after_prefix (String c' prefix ++ tail)) as [n|] eqn:Em.
    + exfalso. apply match_after_prefix_sound in Em as (rest & E & _).
      cbn [append] in E. injection E as E _.
      cbn [list_ascii_of_string forallb] in Hu.
      apply andb_true_iff in Hu as [Hu _].
      rewrite E in Hu. discriminate Hu.
    + rewrite IH; [reflexivity | discriminate | exact Hlf | exact Hu].
Qed.

(** A name of the pattern's form is split as it reads when its prefix
    has no underscore (with underscores the lazy group may stop earlier,
    see [re_match_lazy]). *)
Lemma re_match_plain_name (prefix digits : string) :
  prefix <> EmptyString ->
  no_line_feed prefix = true ->
  no_underscore prefix = true ->
  String.length digits = 4 -> all_digits digits = true ->
  re_match (prefix ++ "_" ++ digits ++ ".jpg_vis_results.jpg")%string
  = Some (prefix, digits).
Proof.
  intros Hne Hlf Hu Hlen Hd. apply re_match_plain_tail; try assumption.
  exact (match_after_prefix_complete digits "" Hlen Hd).
Qed.

(** The pattern matches exactly the names that start with it. *)
Lemma re_match_starts (name : string) :
  re_match name <> None <-> starts_with_pattern name.
Proof.
  split.
  - destruct (re_match name) as [[p d]|] eqn:E; [intros _ | congruence].
    apply re_match_sound in E as (rest & H). now exists p, d, rest.
  - intros (p & d & rest & -> & Hne & Hlf & Hlen & Hd).
    now apply re_match_complete.
Qed.

Lemma not_starts_not_grouped (name : string) :
  ~ starts_with_pattern name -> grouped name = false.
Proof.
  intros H. unfold grouped.
  destruct (re_match name) eqn:E; [|apply andb_false_r].
  exfalso. apply H, re_match_starts. congruence.
Qed.

(** Names the sorter does not group leave no trace in its script. *)
Lemma build_groups_ignores (name : string) (files : list string)
    (g : group_dict) :
  re_match name = None ->
  fold_left group_step (filter (fun f => negb (String.eqb f name)) files) g
  = fold_left group_step files g.
Proof.
  intros Hn. revert g; induction files as [|f files IH]; intros g;
    [reflexivity|].
  cbn [filter fold_left].
  destruct (String.eqb_spec f name) as [->|Hf]; cbn [negb fold_left].
  - assert (group_step g name = g) as ->
      by (unfold group_step; now rewrite Hn).
    apply IH.
  - apply IH.
Qed.

Lemma jpg_files_filter (keep : string -> bool) (listing : list string) :
  jpg_files (filter keep listing) = filter keep (jpg_files listing).
Proof.
  unfold jpg_files. induction listing as [|f l IH]; [reflexivity|].
  cbn [filter]. destruct (keep f) eqn:K, (endswith f ".jpg") eqn:J;
    cbn [filter]; rewrite ?K, ?J, IH; reflexivity.
Qed.

Lemma jpg_files_not_jpg (name : string) (listing : list string) :
  endswith name ".jpg" = false ->
  jpg_files (filter (fun f => negb (String.eqb f name)) listing)
  = jpg_files listing.
Proof.
  intros Hn. unfold jpg_files. induction listing as [|f l IH]; [reflexivity|].
  cbn [filter]. destruct (String.eqb_spec f name) as [->|Hf]; cbn [negb filter].
  - now rewrite Hn.
  - now rewrite IH.
Qed.

Lemma sorter_script_ignores (name : string) (listing : list string) :
  grouped name = false ->
  sorter_script (filter (fun f => negb (String.eqb f name)) listing)
  = sorter_script listing.
Proof.
  intros Hg. unfold sorter_script, build_groups. unfold grouped in Hg.
  destruct (endswith name ".jpg") eqn:Hj.
  - rewrite jpg_files_filter, build_groups_ignores; [reflexivity|].
    now destruct (re_match name).
  - now rewrite jpg_files_not_jpg.
Qed.

Lemma ungrouped_not_moved (name : string) (listing : list string) :
  grouped name = false ->
  ~ In name (map fst (moves (sorter_script listing))).
Proof.
  intros Hg Hin. apply in_map_iff in Hin as ([f c] & E & Hin).
  cbn [fst] in E. subst f.
  apply In_moves_sorter in Hin as (k & _ & _ & _ & Hg' & _). congruence.
Qed.

Lemma ungrouped_in_no_group (name : string) (listing : list string)
    (k : string) (n : Z) :
  grouped name = false -> ~ In (n, name) (group_of k listing).
Proof.
  intros Hg Hin. rewrite group_of_members in Hin.
  apply (in_map snd) in Hin. rewrite members_names in Hin. cbn [snd] in Hin.
  apply prefix_is_grouped in Hin as (_ & Hg' & _). congruence.
Qed.

(** ** Frames and their categories *)

Lemma nth_names (l : list frame) (i : nat) :
  nth i (map snd l) "" = snd (nth i l no_frame).
Proof. exact (map_nth snd l no_frame i). Qed.

Lemma nth_frame_moved (listing : list string) (P : string) (i : nat) :
  i < List.length (group_of P listing) -> i < 8 ->
  In (snd (nth i (sorted_by_number (group_of P listing)) no_frame), category i)
     (moves (sorter_script listing)).
Proof.
  intros Hi H8. apply (group_moves_in_sorter listing P).
  rewrite moves_group_script. cbn [snd].
  rewrite <- nth_names. apply combine_nth_In.
  - now rewrite length_map, sorted_by_number_length.
  - exact H8.
Qed.

Lemma moved_frame_nth (listing : list string) (P f c : string) :
  In (f, c) (moves (sorter_script listing)) -> prefix_is P f = true ->
  exists i,
    i < List.length (group_of P listing) /\ i < 8
    /\ f = snd (nth i (sorted_by_number (group_of P listing)) no_frame)
    /\ c = category i.
Proof.
  intros Hin HP. apply In_moves_sorter in Hin as (k & Hin & Hk & _).
  assert (k = P) by (eapply prefix_is_unique; eassumption). subst k.
  rewrite moves_group_script in Hin. cbn [snd] in Hin.
  apply (combine_In_nth _ _ _ _ "" "") in Hin as (i & Hi & H8 & Hf & Hc).
  rewrite length_map, sorted_by_number_length in Hi.
  exists i. repeat split; try assumption; [|now symmetry].
  rewrite <- Hf. apply nth_names.
Qed.

Lemma In_group_of (listing : list string) (P f : string) (n : Z) :
  In (n, f) (group_of P listing) ->
  In f listing /\ grouped f = true /\ prefix_is P f = true.
Proof.
  intros Hin. rewrite group_of_members in Hin.
  apply (in_map snd) in Hin. rewrite members_names in Hin.
  now apply prefix_is_grouped in Hin.
Qed.

Lemma NoDup_group_names (listing : list string) (P : string) :
  NoDup listing ->
  NoDup (map snd (sorted_by_number (group_of P listing))).
Proof.
  intros H. eapply Permutation_NoDup;
    [apply Permutation_map, Permutation_sym, sorted_by_number_perm|].
  rewrite group_of_members, members_names.
  now apply NoDup_filter, NoDup_filter.
Qed.

Lemma sorted_nth_in_group (listing : list string) (P : string) (i : nat) :
  i < List.length (group_of P listing) ->
  In (nth i (sorted_by_number (group_of P listing)) no_frame)
     (group_of P listing).
Proof.
  intros Hi. eapply Permutation_in; [apply sorted_by_number_perm|].
  apply nth_In. now rewrite sorted_by_number_length.
Qed.

(** C1: a group of eight files whose frame numbers are 0..7, listed in
    any order, is sorted by frame number; the file with frame number [i]
    is moved into category [i], so frame 0 lands in [0.Address] and frame
    7 in [7.Finish]. *)
Theorem C1_full_group_by_frame_number (w : world) (source target : path)
    (P : string) :
  regular w source target = true ->
  Permutation (map fst (group_of P (entries source (fs w))))
              (map Z.of_nat (seq 0 8)) ->
  exists w',
    sort_golf_swing_images source target w = Ok tt w'
    /\ forall (i : nat) (f : string),
         In (Z.of_nat i, f) (group_of P (entries source (fs w))) ->
         i < 8
         /\ is_file_in (fs w) (source ++ [f]) = true
         /\ lookup (fs w') (target ++ [category i; f])
            = lookup (fs w) (source ++ [f])
         /\ (source ++ [f] <> target ++ [category i; f] ->
             lookup (fs w') (source ++ [f]) = None)
         /\ (i = 0 -> category i = "0.Address")
         /\ (i = 7 -> category i = "7.Finish").
Proof.
  intros Hreg Hperm.
  destruct (sorter_regular w source target Hreg) as (w' & Hrun & Hsw).
  exists w'. split; [exact Hrun|]. intros i f Hin.
  destruct (sorted_nth_seq _ 8 i f Hperm Hin) as [Hi Hnth].
  assert (Hlen : List.length (group_of P (entries source (fs w))) = 8).
  { apply Permutation_length in Hperm.
    now rewrite !length_map, length_seq in Hperm. }
  assert (Hmv : In (f, category i)
                   (moves (sorter_script (entries source (fs w))))).
  { replace f
      with (snd (nth i (sorted_by_number
                          (group_of P (entries source (fs w)))) no_frame))
      by (unfold no_frame; now rewrite Hnth).
    apply nth_frame_moved; [rewrite Hlen|]; exact Hi. }
  destruct (sw_moved _ _ _ _ Hsw f _ Hmv) as [Hfile Hdst].
  repeat split; try assumption.
  - now apply (sw_gone _ _ _ _ Hsw f (category i)).
  - now intros ->.
  - now intros ->.
Qed.

Lemma C1_witness :
  regular full_world out out = true
  /\ Permutation (map fst (group_of "a" (entries out (fs full_world))))
                 (map Z.of_nat (seq 0 8))
  /\ exists w',
       sort_golf_swing_images out out full_world = Ok tt w'
       /\ lookup (fs w') (out ++ ["0.Address"; vis "a" "0000"])
          = Some (File 10)
       /\ lookup (fs w') (out ++ ["7.Finish"; vis "a" "0007"])
          = Some (File 17).
Proof.
  assert (Hr : regular full_world out out = true) by (vm_compute; reflexivity).
  assert (Hp : Permutation
                 (map fst (group_of "a" (entries out (fs full_world))))
                 (map Z.of_nat (seq 0 8)))
    by (vm_compute; concrete_perm).
  split; [exact Hr | split; [exact Hp|]].
  destruct (C1_full_group_by_frame_number full_world out out "a" Hr Hp)
    as (w' & Hrun & H).
  exists w'. split; [exact Hrun | split].
  - destruct (H 0 (vis "a" "0000")) as (_ & _ & H0 & _);
      [vm_compute; tauto | exact H0].
  - destruct (H 7 (vis "a" "0007")) as (_ & _ & H7 & _);
      [vm_compute; tauto | exact H7].
Defined.

Lemma append_assoc3 (a b c : string) :
  (a ++ (b ++ c))%string = ((a ++ b) ++ c)%string.
Proof. induction a as [|x a IH]; simpl; [reflexivity | now rewrite IH]. Qed.

Lemma pattern_form_endswith (name : string) :
  has_pattern_form name -> endswith name ".jpg_vis_results.jpg" = true.
Proof.
  intros (p & d & -> & _). rewrite 2!append_assoc3. apply endswith_append.
Qed.

Lemma stray_name_not_pattern : ~ has_pattern_form stray_name.
Proof. intros H. apply pattern_form_endswith in H. discriminate H. Qed.

(** C2, as stated, fails: a name that is not of the form
    [<prefix>_<4digits>.jpg_vis_results.jpg] but starts with such a name
    and ends in [.jpg] is moved out of the source directory. *)
Lemma C2_counterexample :
  In stray_name (entries out (fs stray_world))
  /\ ~ has_pattern_form stray_name
  /\ lookup (fs stray_world) (out ++ [stray_name]) = Some (File 7)
  /\ lookup (fs (final_world (sort_golf_swing_images out out stray_world)))
            (out ++ [stray_name]) = None
  /\ lookup (fs (final_world (sort_golf_swing_images out out stray_world)))
            (out ++ ["0.Address"; stray_name]) = Some (File 7).
Proof.
  split; [vm_compute; tauto|].
  split; [exact stray_name_not_pattern|].
  repeat split; vm_compute; reflexivity.
Qed.

Lemma grouped_starts (name : string) :
  grouped name = true
  <-> endswith name ".jpg" = true /\ starts_with_pattern name.
Proof.
  unfold grouped. rewrite andb_true_iff, <- re_match_starts.
  destruct (re_match name); split; intros [H1 H2]; split;
    congruence || assumption.
Qed.

Lemma not_grouped_starts (name : string) :
  ~ (endswith name ".jpg" = true /\ starts_with_pattern name) ->
  grouped name = false.
Proof.
  intros H. destruct (grouped name) eqn:E; [|reflexivity].
  exfalso. now apply H, grouped_starts.
Qed.

(** C2, amended: a listed name that does not end in [.jpg], or of which no
    initial segment has the form [<prefix>_<dddd>.jpg_vis_results.jpg]
    (a non-empty prefix free of line feeds, then an underscore and exactly
    four characters that [\d] accepts, here ['0'..'9']), is never moved:
    it belongs to no group, the sorter prints and moves exactly what it
    would without it, and the entry is still in the source directory when
    the sorter returns or raises. *)
Theorem C2_unmatched_name_stays (w : world) (source target : path)
    (name : string) (x : node) :
  lookup (fs w) (source ++ [name]) = Some x ->
  ~ (endswith name ".jpg" = true /\ starts_with_pattern name) ->
  lookup (fs (final_world (sort_golf_swing_images source target w)))
         (source ++ [name]) = Some x
  /\ (forall k n, ~ In (n, name) (group_of k (entries source (fs w))))
  /\ sorter_script
       (filter (fun f => negb (String.eqb f name)) (entries source (fs w)))
     = sorter_script (entries source (fs w)).
Proof.
  intros Hx Hn. apply not_grouped_starts in Hn. repeat split.
  - destruct (lookup (fs w) source) as [[d|]|] eqn:Hs.
    + rewrite sorter_listing_fails; [exact Hx | congruence].
    + rewrite sorter_unfold by exact Hs.
      apply (keeps_bind (holds (source ++ [name]) x)); [| |exact Hx].
      * apply keeps_for_each. intros c _. apply keeps_make_category_dir.
      * intros _. apply keeps_unmoved. now apply ungrouped_not_moved.
    + rewrite sorter_listing_fails; [exact Hx | congruence].
  - intros k n. now apply ungrouped_in_no_group.
  - now apply sorter_script_ignores.
Qed.

Lemma C2_witness :
  lookup (fs backup_world) (out ++ [backup_name]) = Some (File 8)
  /\ ~ (endswith backup_name ".jpg" = true /\ starts_with_pattern backup_name)
  /\ starts_with_pattern backup_name
  /\ lookup (fs (final_world (sort_golf_swing_images out out backup_world)))
            (out ++ [backup_name]) = Some (File 8)
  /\ lookup (fs (final_world (sort_golf_swing_images out out backup_world)))
            (out ++ ["0.Address"; vis "a" "0001"]) = Some (File 11).
Proof.
  assert (Hx : lookup (fs backup_world) (out ++ [backup_name])
               = Some (File 8)) by reflexivity.
  assert (Hn : ~ (endswith backup_name ".jpg" = true
                  /\ starts_with_pattern backup_name))
    by (intros [H _]; discriminate H).
  split; [exact Hx | split; [exact Hn | split]].
  - exists "a", "0001", ".bak". repeat split; discriminate.
  - split; [|vm_compute; reflexivity].
    exact (proj1 (C2_unmatched_name_stays backup_world out out backup_name
                    (File 8) Hx Hn)).
Defined.

(** C3: some name ending in [.jpg] extends the pattern by further
    characters, so it is not of the pattern's form, and is grouped all the
    same, under the prefix and the frame number of its matching initial
    segment, and moved into a category directory. *)
Theorem C3_extended_name_is_sorted :
  exists (name : string) (w w' : world) (source target : path) (d : N),
    endswith name ".jpg" = true
    /\ (exists extra, extra <> EmptyString
                      /\ name = ("a_0001.jpg_vis_results.jpg" ++ extra)%string)
    /\ ~ has_pattern_form name
    /\ lookup (fs w) (source ++ [name]) = Some (File d)
    /\ re_match name = Some ("a", "0001")
    /\ group_of "a" (entries source (fs w)) = [(1%Z, name)]
    /\ sort_golf_swing_images source target w = Ok tt w'
    /\ lookup (fs w') (target ++ ["0.Address"; name]) = Some (File d)
    /\ lookup (fs w') (source ++ [name]) = None.
Proof.
  exists stray_name, stray_world,
    (final_world (sort_golf_swing_images out out stray_world)), out, out, 7%N.
  split; [reflexivity|].
  split; [exists ".copy.jpg"; split; [discriminate | reflexivity]|].
  split; [exact stray_name_not_pattern|].
  repeat split; vm_compute; reflexivity.
Qed.

(** ** Lines of the script *)

Lemma warning_in_frames_script (P : string) (cats : list string)
    (l : list frame) :
  List.length cats < List.length l ->
  In (warning_line P) (lines (frames_script P cats l)).
Proof.
  revert cats; induction l as [|[n f] l IH]; intros cats Hlen;
    simpl in Hlen; [lia|].
  destruct cats as [|c cats]; cbn [frames_script lines]; [now left|].
  right. apply IH. simpl in Hlen. lia.
Qed.

Lemma group_lines_in_sorter (listing : list string) (P line : string) :
  group_of P listing <> [] ->
  In line (lines (group_script (P, group_of P listing))) ->
  In line (lines (sorter_script listing)).
Proof.
  intros Hne H. unfold sorter_script. rewrite lines_flat_map.
  apply in_flat_map. exists (P, group_of P listing). split; [|exact H].
  unfold group_of in *.
  destruct (groups_get P _) as [v|] eqn:E; [now apply In_groups_get|].
  congruence.
Qed.

Lemma group_not_nil (listing : list string) (P : string) :
  0 < List.length (group_of P listing) -> group_of P listing <> [].
Proof. intros H E. rewrite E in H. simpl in H. lia. Qed.

(** A frame of the group at a position that gets no category is not
    moved. *)
Lemma late_frame_not_moved (listing : list string) (P : string) (i : nat)
    (f' c' : string) :
  NoDup listing ->
  8 <= i < List.length (group_of P listing) ->
  In (f', c') (moves (sorter_script listing)) ->
  f' <> snd (nth i (sorted_by_number (group_of P listing)) no_frame).
Proof.
  intros Hnd [H8 Hi] Hin E.
  assert (HP : prefix_is P f' = true).
  { pose proof (sorted_nth_in_group listing P i Hi) as Hg.
    destruct (nth i _ no_frame) as [n f] eqn:En. cbn [snd] in E. subst f'.
    now apply In_group_of in Hg. }
  destruct (moved_frame_nth listing P f' c' Hin HP) as (j & Hj & Hj8 & Ef & _).
  rewrite E, <- !nth_names in Ef.
  apply (proj1 (NoDup_nth _ "") (NoDup_group_names listing P Hnd)) in Ef;
    rewrite ?length_map, ?sorted_by_number_length; lia.
Qed.

(** C4: of a group with more than eight members the sorter moves the
    first eight, in ascending order of frame number, into the eight
    category directories, prints the warning of line 113, [Warning: More
    frames than categories for <prefix>, skipping extra frames], and
    leaves every member from sorted position 8 on in the source
    directory. *)
Theorem C4_long_group (w : world) (source target : path) (P : string) :
  regular w source target = true ->
  8 < List.length (group_of P (entries source (fs w))) ->
  exists w',
    sort_golf_swing_images source target w = Ok tt w'
    /\ Permutation (sorted_by_number (group_of P (entries source (fs w))))
                   (group_of P (entries source (fs w)))
    /\ StronglySorted Z.le
         (map fst (sorted_by_number (group_of P (entries source (fs w)))))
    /\ (forall i f,
          i < 8 ->
          f = snd (nth i (sorted_by_number
                            (group_of P (entries source (fs w)))) no_frame) ->
          is_file_in (fs w) (source ++ [f]) = true
          /\ lookup (fs w') (target ++ [category i; f])
             = lookup (fs w) (source ++ [f])
          /\ (source ++ [f] <> target ++ [category i; f] ->
              lookup (fs w') (source ++ [f]) = None))
    /\ (exists printed,
          stdout w' = stdout w ++ printed
          /\ In ("Warning: More frames than categories for " ++ P
                 ++ ", skipping extra frames")%string printed)
    /\ (forall i f,
          8 <= i < List.length (group_of P (entries source (fs w))) ->
          f = snd (nth i (sorted_by_number
                            (group_of P (entries source (fs w)))) no_frame) ->
          is_file_in (fs w) (source ++ [f]) = true
          /\ lookup (fs w') (source ++ [f]) = lookup (fs w) (source ++ [f])).
Proof.
  intros Hreg Hlen.
  destruct (sorter_regular w source target Hreg) as (w' & Hrun & Hsw).
  pose proof (regular_spec _ _ _ Hreg) as [Hs Ht Hl Hc Hf Hd].
  set (listing := entries source (fs w)) in *.
  exists w'. split; [exact Hrun|].
  split; [apply sorted_by_number_perm|].
  split; [apply sorted_by_number_ascending|].
  split; [|split].
  - intros i f Hi ->.
    assert (Hmv := nth_frame_moved listing P i ltac:(lia) Hi).
    destruct (sw_moved _ _ _ _ Hsw _ _ Hmv) as [Hfile Hdst].
    repeat split; try assumption.
    now apply (sw_gone _ _ _ _ Hsw _ (category i)).
  - exists (lines (sorter_script listing)).
    split; [apply (sw_stdout _ _ _ _ Hsw)|].
    change (In (warning_line P) (lines (sorter_script listing))).
    apply (group_lines_in_sorter listing P);
      [apply group_not_nil; lia|].
    unfold group_script. rewrite lines_app. apply in_or_app. right.
    apply warning_in_frames_script. cbn [fst snd].
    rewrite sorted_by_number_length. exact Hlen.
  - intros i f Hi ->.
    pose proof (sorted_nth_in_group listing P i (proj2 Hi)) as Hg.
    destruct (nth i (sorted_by_number (group_of P listing)) no_frame)
      as [n f] eqn:En. cbn [snd].
    apply In_group_of in Hg as (Hin & Hgr & _).
    assert (Hfile := Hf f Hin Hgr). split; [exact Hfile|].
    rewrite (sw_rest _ _ _ _ Hsw).
    + now apply dirs_made_file.
    + intros f' c' Hmv.
      assert (Hne : f' <> f).
      { pose proof (late_frame_not_moved listing P i f' c' Hl Hi Hmv) as H.
        now rewrite En in H. }
      split; intros E.
      * apply last_component in E. congruence.
      * rewrite two_components in E. apply last_component in E. congruence.
Qed.

Lemma C4_witness :
  regular long_world out out = true
  /\ 8 < List.length (group_of "s" (entries out (fs long_world)))
  /\ exists w',
       sort_golf_swing_images out out long_world = Ok tt w'
       /\ lookup (fs w') (out ++ ["7.Finish"; vis "s" "0010"])
          = Some (File 110)
       /\ In "Warning: More frames than categories for s, skipping extra frames"
             (stdout w')
       /\ lookup (fs w') (out ++ [vis "s" "0012"]) = Some (File 112).
Proof.
  assert (Hr : regular long_world out out = true) by (vm_compute; reflexivity).
  assert (Hl : 8 < List.length (group_of "s" (entries out (fs long_world))))
    by (vm_compute; lia).
  split; [exact Hr | split; [exact Hl|]].
  destruct (C4_long_group long_world out out "s" Hr Hl)
    as (w' & Hrun & _ & _ & Hfirst & (printed & Hout & Hwarn) & Hrest).
  exists w'. split; [exact Hrun | split; [|split]].
  - destruct (Hfirst 7 (vis "s" "0010")) as (_ & H & _);
      [lia | vm_compute; reflexivity | exact H].
  - rewrite Hout. apply in_or_app. right. exact Hwarn.
  - destruct (Hrest 9 (vis "s" "0012")) as (_ & H);
      [vm_compute; lia | vm_compute; reflexivity | exact H].
Defined.

(** C5: of a group with fewer than eight members the sorter moves all,
    in ascending order of frame number, into the first that many category
    directories; it prints the note of line 108 with the count, [Note:
    Group <prefix> has <n> frames], and returns; the other category
    directories exist and receive no file of that prefix. *)
Theorem C5_short_group (w : world) (source target : path) (P : string) :
  regular w source target = true ->
  0 < List.length (group_of P (entries source (fs w))) ->
  List.length (group_of P (entries source (fs w))) < 8 ->
  exists w',
    sort_golf_swing_images source target w = Ok tt w'
    /\ Permutation (sorted_by_number (group_of P (entries source (fs w))))
                   (group_of P (entries source (fs w)))
    /\ StronglySorted Z.le
         (map fst (sorted_by_number (group_of P (entries source (fs w)))))
    /\ (forall i f,
          i < List.length (group_of P (entries source (fs w))) ->
          f = snd (nth i (sorted_by_number
                            (group_of P (entries source (fs w)))) no_frame) ->
          is_file_in (fs w) (source ++ [f]) = true
          /\ lookup (fs w') (target ++ [category i; f])
             = lookup (fs w) (source ++ [f])
          /\ (source ++ [f] <> target ++ [category i; f] ->
              lookup (fs w') (source ++ [f]) = None))
    /\ (exists printed,
          stdout w' = stdout w ++ printed
          /\ In ("Note: Group " ++ P ++ " has "
                 ++ str (List.length (group_of P (entries source (fs w))))
                 ++ " frames")%string
                printed)
    /\ (forall c, In c categories ->
                  lookup (fs w') (target ++ [c]) = Some Dir)
    /\ (forall i f,
          List.length (group_of P (entries source (fs w))) <= i < 8 ->
          prefix_is P f = true ->
          source <> target ++ [category i] ->
          lookup (fs w') (target ++ [category i; f])
          = lookup (fs w) (target ++ [category i; f])).
Proof.
  intros Hreg Hpos Hlen.
  destruct (sorter_regular w source target Hreg) as (w' & Hrun & Hsw).
  pose proof (regular_spec _ _ _ Hreg) as [Hs Ht Hl Hc Hf Hd].
  set (listing := entries source (fs w)) in *.
  exists w'. split; [exact Hrun|].
  split; [apply sorted_by_number_perm|].
  split; [apply sorted_by_number_ascending|].
  split; [|split; [|split]].
  - intros i f Hi ->.
    assert (Hmv := nth_frame_moved listing P i Hi ltac:(lia)).
    destruct (sw_moved _ _ _ _ Hsw _ _ Hmv) as [Hfile Hdst].
    repeat split; try assumption.
    now apply (sw_gone _ _ _ _ Hsw _ (category i)).
  - exists (lines (sorter_script listing)).
    split; [apply (sw_stdout _ _ _ _ Hsw)|].
    change (In (note_line P (List.length (group_of P listing)))
               (lines (sorter_script listing))).
    apply (group_lines_in_sorter listing P); [now apply group_not_nil|].
    unfold group_script. rewrite lines_app. apply in_or_app. left.
    cbn [fst snd]. rewrite sorted_by_number_length.
    destruct (Nat.eqb_spec (List.length (group_of P listing)) 8) as [E|_];
      [lia | now left].
  - intros c Hcat. rewrite (sw_rest _ _ _ _ Hsw).
    + now apply dirs_made_category.
    + intros f' c' Hmv. split; intros E.
      * apply last_component in E. subst f'.
        apply In_moves_sorter in Hmv as (_ & _ & _ & _ & Hg & _).
        unfold grouped in Hg. rewrite (category_not_jpg c Hcat) in Hg.
        discriminate.
      * apply (f_equal (@List.length string)) in E.
        rewrite !length_app in E. simpl in E. lia.
  - intros i f Hi HP Hne. rewrite (sw_rest _ _ _ _ Hsw).
    + apply dirs_made_deeper.
    + intros f' c' Hmv. split; intros E.
      * rewrite two_components in E. apply snoc_inj in E as [E _].
        congruence.
      * apply app_inv_head in E. injection E as E1 E2. subst f' c'.
        destruct (moved_frame_nth listing P f (category i) Hmv HP)
          as (j & Hj & Hj8 & _ & Ec).
        apply category_inj in Ec; [lia | simpl; lia | exact Hj8].
Qed.

Lemma C5_witness :
  regular short_world out out = true
  /\ 0 < List.length (group_of "s" (entries out (fs short_world)))
  /\ List.length (group_of "s" (entries out (fs short_world))) < 8
  /\ exists w',
       sort_golf_swing_images out out short_world = Ok tt w'
       /\ lookup (fs w') (out ++ ["4.Mid-downswing"; vis "s" "0024"])
          = Some (File 124)
       /\ In "Note: Group s has 5 frames" (stdout w')
       /\ lookup (fs w') (out ++ ["7.Finish"]) = Some Dir.
Proof.
  assert (Hr : regular short_world out out = true) by (vm_compute; reflexivity).
  assert (H0 : 0 < List.length (group_of "s" (entries out (fs short_world))))
    by (vm_compute; lia).
  assert (H8 : List.length (group_of "s" (entries out (fs short_world))) < 8)
    by (vm_compute; lia).
  split; [exact Hr | split; [exact H0 | split; [exact H8|]]].
  destruct (C5_short_group short_world out out "s" Hr H0 H8)
    as (w' & Hrun & _ & _ & Hmoved & (printed & Hout & Hnote) & Hdirs & _).
  exists w'. split; [exact Hrun | split; [|split]].
  - destruct (Hmoved 4 (vis "s" "0024")) as (_ & H & _);
      [vm_compute; lia | vm_compute; reflexivity | exact H].
  - rewrite Hout. apply in_or_app. right. exact Hnote.
  - apply Hdirs. vm_compute. tauto.
Defined.

(** ** Nothing to sort *)

Lemma fold_group_step_ungrouped (listing : list string) (g : group_dict) :
  forallb (fun f => negb (grouped f)) listing = true ->
  fold_left group_step (jpg_files listing) g = g.
Proof.
  revert g; induction listing as [|f l IH]; intros g H; [reflexivity|].
  cbn [forallb] in H. apply andb_true_iff in H as [Hf Hl].
  unfold jpg_files in *. cbn [filter].
  destruct (endswith f ".jpg") eqn:Hj; [|now apply IH].
  cbn [fold_left]. unfold grouped in Hf. rewrite Hj in Hf.
  unfold group_step at 2. destruct (re_match f); [discriminate|].
  now apply IH.
Qed.

Lemma sorter_script_ungrouped (listing : list string) :
  forallb (fun f => negb (grouped f)) listing = true ->
  sorter_script listing = [].
Proof.
  intros H. unfold sorter_script, build_groups.
  now rewrite fold_group_step_ungrouped.
Qed.

Lemma make_category_dirs_present (target : path) (cats : list string)
    (w : world) :
  (forall c, In c cats -> lookup (fs w) (target ++ [c]) = Some Dir) ->
  for_each cats (make_category_dir target) w = Ok tt w.
Proof.
  induction cats as [|c cats IH]; intros H; [reflexivity|].
  cbn [for_each]. unfold bind at 1.
  assert (make_category_dir target c w = Ok tt w) as ->.
  { unfold make_category_dir, bind, os_path_exists, exists_in.
    now rewrite (H c (or_introl eq_refl)). }
  apply IH. intros c' Hc'. apply H. now right.
Qed.



(** ** Two prefixes *)





(** ** The category directories *)

Lemma dirs_made_keeps (target : path) (f0 : filesystem) (p : path)
    (x : node) :
  forallb (fun c => negb (is_file_in f0 (target ++ [c]))) categories = true ->
  lookup f0 p = Some x ->
  dirs_made target categories f0 p = Some x.
Proof.
  intros Hc Hp. unfold dirs_made.
  destruct (existsb _ categories) eqn:E; [|exact Hp].
  apply existsb_exists in E as (c & Hin & E).
  destruct (path_eqb_spec (target ++ [c]) p) as [E'|]; [|discriminate].
  rewrite forallb_forall in Hc. specialize (Hc c Hin).
  unfold is_file_in in Hc. rewrite E', Hp in Hc.
  destruct x; [discriminate | reflexivity].
Qed.

(** C8: the eight category directories are made, where absent, before
    the first group is processed, and they are all there when the sorter
    stops, whether it returns or a move raises. *)
Theorem C8_category_dirs_first (w : world) (source target : path) :
  lookup (fs w) source = Some Dir ->
  lookup (fs w) target = Some Dir ->
  forallb (fun c => negb (is_file_in (fs w) (target ++ [c]))) categories
  = true ->
  exists w1,
    for_each categories (make_category_dir target) w = Ok tt w1
    /\ (forall p, lookup (fs w1) p = dirs_made target categories (fs w) p)
    /\ (forall c, In c categories ->
                  lookup (fs w1) (target ++ [c]) = Some Dir)
    /\ sort_golf_swing_images source target w
       = run_script source target
           (sorter_script (entries source (fs w))) w1
    /\ (forall c, In c categories ->
          lookup (fs (final_world (sort_golf_swing_images source target w)))
                 (target ++ [c]) = Some Dir).
Proof.
  intros Hs Ht Hc.
  destruct (make_category_dirs_spec target categories w Ht Hc)
    as (f1 & Hmk & Hf1).
  assert (Hdirs : forall c, In c categories ->
            lookup f1 (target ++ [c]) = Some Dir)
    by (intros c Hin; rewrite Hf1; now apply dirs_made_category).
  assert (Hrun : sort_golf_swing_images source target w
                 = run_script source target
                     (sorter_script (entries source (fs w)))
                     (mkWorld f1 (stdout w)))
    by (rewrite sorter_unfold by exact Hs; unfold bind; now rewrite Hmk).
  exists (mkWorld f1 (stdout w)). repeat split; try assumption.
  intros c Hin. rewrite Hrun.
  apply (keeps_target_child c Dir source target); [|now apply Hdirs].
  intros f c' Hmv ->.
  apply In_moves_sorter in Hmv as (_ & _ & _ & _ & Hg & _).
  unfold grouped in Hg. rewrite (category_not_jpg c Hin) in Hg. discriminate.
Qed.

Lemma C8_witness :
  lookup (fs full_world) out = Some Dir
  /\ forallb (fun c => negb (is_file_in (fs full_world) (out ++ [c])))
             categories = true
  /\ lookup (fs (final_world (sort_golf_swing_images out out full_world)))
            (out ++ ["3.Top"]) = Some Dir.
Proof.
  assert (Hs : lookup (fs full_world) out = Some Dir) by reflexivity.
  assert (Hc : forallb (fun c => negb (is_file_in (fs full_world) (out ++ [c])))
                       categories = true) by (vm_compute; reflexivity).
  split; [exact Hs | split; [exact Hc|]].
  destruct (C8_category_dirs_first full_world out out Hs Hs Hc)
    as (w1 & _ & _ & _ & _ & H).
  apply H. vm_compute. tauto.
Defined.

(** ** Moves only *)

(** C9, as stated, fails: a regular file that already sits at the
    destination of a move is replaced, so its content is in no file after
    the run. *)
Lemma C9_counterexample :
  regular clash_world out out = true
  /\ lookup (fs clash_world) (out ++ ["0.Address"; vis "a" "0000"])
     = Some (File 2)
  /\ (exists w', sort_golf_swing_images out out clash_world = Ok tt w')
  /\ forall p,
       lookup (fs (final_world (sort_golf_swing_images out out clash_world))) p
       <> Some (File 2).
Proof.
  split; [vm_compute; reflexivity|].
  split; [vm_compute; reflexivity|].
  split; [eexists; vm_compute; reflexivity|].
  intros [|a p] H; [discriminate|].
  cbn [lookup] in H. apply assoc_In in H. vm_compute in H.
  repeat (destruct H as [H|H]; [discriminate H|]). contradiction.
Qed.

(** C9, amended: on an ordinary input every file the sorter moves keeps
    its name and its content and ends at [<target>/<category>/<name>] for
    exactly one category; its entry in the source directory is gone,
    except when that destination is the path it already had (the source
    directory being that category directory), where it stays in place; a
    regular file already at the destination is replaced by it; every
    other entry stays as it is, and no file shows up anywhere else. *)
Theorem C9_moves_only (w : world) (source target : path) :
  regular w source target = true ->
  exists w',
    sort_golf_swing_images source target w = Ok tt w'
    /\ (forall f c,
          In (f, c) (moves (sorter_script (entries source (fs w)))) ->
          In f (entries source (fs w)) /\ In c categories
          /\ is_file_in (fs w) (source ++ [f]) = true
          /\ lookup (fs w') (target ++ [c; f]) = lookup (fs w) (source ++ [f])
          /\ (forall c',
                In (f, c') (moves (sorter_script (entries source (fs w)))) ->
                c' = c)
          /\ (source ++ [f] <> target ++ [c; f] ->
              lookup (fs w') (source ++ [f]) = None)
          /\ (source ++ [f] = target ++ [c; f] ->
              source = target ++ [c]
              /\ lookup (fs w') (source ++ [f])
                 = lookup (fs w) (source ++ [f])))
    /\ (forall p x,
          lookup (fs w) p = Some x ->
          (forall f c,
             In (f, c) (moves (sorter_script (entries source (fs w)))) ->
             p <> source ++ [f] /\ p <> target ++ [c; f]) ->
          lookup (fs w') p = Some x)
    /\ (forall p d,
          lookup (fs w') p = Some (File d) ->
          lookup (fs w) p = Some (File d)
          \/ exists f c,
               In (f, c) (moves (sorter_script (entries source (fs w))))
               /\ p = target ++ [c; f]
               /\ lookup (fs w) (source ++ [f]) = Some (File d)).
Proof.
  intros Hreg.
  destruct (sorter_regular w source target Hreg) as (w' & Hrun & Hsw).
  pose proof (regular_spec _ _ _ Hreg) as [Hs Ht Hl Hc Hf Hd].
  exists w'. split; [exact Hrun|]. split; [|split].
  - intros f c Hmv.
    destruct (sw_moved _ _ _ _ Hsw f c Hmv) as [Hfile Hdst].
    pose proof (In_moves_sorter _ _ _ Hmv) as (_ & _ & _ & Hin & _ & Hcat).
    do 4 (split; [assumption|]). split; [|split].
    + intros c' Hmv'. eapply NoDup_fst_functional; try eassumption.
      now apply NoDup_moves_sorter.
    + now apply (sw_gone _ _ _ _ Hsw f c).
    + intros E. split.
      * rewrite two_components in E. now apply snoc_inj in E.
      * rewrite E at 1. exact Hdst.
  - intros p x Hp Hfree. rewrite (sw_rest _ _ _ _ Hsw p Hfree).
    now apply dirs_made_keeps.
  - apply (sw_origin _ _ _ _ Hsw).
Qed.

Lemma C9_witness :
  regular clash_world out out = true
  /\ (exists w',
        sort_golf_swing_images out out clash_world = Ok tt w'
        /\ lookup (fs w') (out ++ ["0.Address"; vis "a" "0000"])
           = Some (File 1)
        /\ lookup (fs w') (out ++ [vis "a" "0000"]) = None)
  /\ regular nested_world (out ++ ["0.Address"]) out = true
  /\ exists w',
       sort_golf_swing_images (out ++ ["0.Address"]) out nested_world
       = Ok tt w'
       /\ lookup (fs w') (out ++ ["0.Address"; vis "a" "0001"])
          = Some (File 11)
       /\ lookup (fs w') (out ++ ["1.Toe-up"; vis "a" "0003"])
          = Some (File 13)
       /\ lookup (fs w') (out ++ ["0.Address"; vis "a" "0003"]) = None.
Proof.
  assert (Hr : regular clash_world out out = true) by (vm_compute; reflexivity).
  assert (Hn : regular nested_world (out ++ ["0.Address"]) out = true)
    by (vm_compute; reflexivity).
  split; [exact Hr | split; [|split; [exact Hn|]]].
  - destruct (C9_moves_only clash_world out out Hr) as (w' & Hrun & Hmv & _).
    exists w'. split; [exact Hrun|].
    destruct (Hmv (vis "a" "0000") "0.Address")
      as (_ & _ & _ & H & _ & Hgone & _); [vm_compute; tauto|].
    split; [exact H | apply Hgone; discriminate].
  - destruct (C9_moves_only nested_world (out ++ ["0.Address"]) out Hn)
      as (w' & Hrun & Hmv & _).
    exists w'. split; [exact Hrun|].
    destruct (Hmv (vis "a" "0001") "0.Address")
      as (_ & _ & _ & _ & _ & _ & Hstay); [vm_compute; tauto|].
    destruct (Hmv (vis "a" "0003") "1.Toe-up")
      as (_ & _ & _ & H3 & _ & Hgone & _); [vm_compute; tauto|].
    split; [exact (proj2 (Hstay eq_refl)) | split; [exact H3|]].
    apply Hgone. discriminate.
Defined.

(** ** The driver's skip *)

(** C10: with the skip flag set and the output file present, the driver
    does not process the image: it prints the skip line, advances the
    progress count by one, leaves the file system as it is and goes on
    with the next image. *)
Theorem C10_skip_processed (model visualizer : Type)
    (process_image : model -> visualizer -> path -> path -> args -> M unit)
    (m : model) (v : visualizer) (a : args) (sub_data_folder_path : path)
    (pbar : nat) (file : string) (rest : list string) (w : world) :
  skip_processed a = true ->
  exists_in (fs w) (output_folder a ++ [(file ++ "_vis_results.jpg")%string])
  = true ->
  process_file model visualizer process_image m v a sub_data_folder_path
    pbar file w
  = Ok (pbar + 1) (mkWorld (fs w) (stdout w ++ [skip_line file]))
  /\ process_files model visualizer process_image m v a sub_data_folder_path
       pbar (file :: rest) w
     = process_files model visualizer process_image m v a sub_data_folder_path
         (pbar + 1) rest (mkWorld (fs w) (stdout w ++ [skip_line file])).
Proof.
  intros Hskip Hex.
  assert (Hstep : process_file model visualizer process_image m v a
                    sub_data_folder_path pbar file w
                  = Ok (pbar + 1)
                       (mkWorld (fs w) (stdout w ++ [skip_line file]))).
  { unfold process_file, bind, os_path_exists. rewrite Hskip, Hex.
    reflexivity. }
  split; [exact Hstep|].
  cbn [process_files]. unfold bind at 1. now rewrite Hstep.
Qed.

Lemma C10_witness :
  skip_processed skip_args = true
  /\ exists_in (fs skip_world)
       (output_folder skip_args ++ [("x.jpg" ++ "_vis_results.jpg")%string])
     = true
  /\ process_files unit unit (fun _ _ _ _ _ => raise OSError) tt tt skip_args
       ["in"; "swing"] 0 ["x.jpg"] skip_world
     = Ok 1 (mkWorld (fs skip_world)
               ["Image x.jpg already processed. Skipping..."]).
Proof.
  assert (Hskip : skip_processed skip_args = true) by reflexivity.
  assert (Hex : exists_in (fs skip_world)
                  (output_folder skip_args
                   ++ [("x.jpg" ++ "_vis_results.jpg")%string]) = true)
    by reflexivity.
  split; [exact Hskip | split; [exact Hex|]].
  rewrite (proj2 (C10_skip_processed unit unit (fun _ _ _ _ _ => raise OSError)
                    tt tt skip_args ["in"; "swing"] 0 "x.jpg" [] skip_world
                    Hskip Hex)).
  reflexivity.
Defined.

(** * Further properties *)

(** ** Groups, once more *)

Lemma In_group_of_iff (P : string) (listing : list string) (n : Z)
    (f : string) :
  In (n, f) (group_of P listing)
  <-> In f listing
      /\ endswith f ".jpg" = true
      /\ exists digits, re_match f = Some (P, digits) /\ n = int digits.
Proof.
  rewrite group_of_members. unfold members. rewrite in_map_iff. split.
  - intros (f' & E & Hin). apply filter_In in Hin as [Hin HP].
    unfold jpg_files in Hin. apply filter_In in Hin as [Hin Hj].
    unfold frame_of in E. injection E as En ->.
    repeat split; try assumption.
    unfold prefix_is in HP.
    destruct (re_match f) as [[k digits]|]; [|discriminate].
    apply String.eqb_eq in HP. subst k. now exists digits.
  - intros (Hin & Hj & digits & Hm & ->). exists f. split.
    + unfold frame_of. now rewrite Hm.
    + apply filter_In. split.
      * unfold jpg_files. apply filter_In. now split.
      * unfold prefix_is. rewrite Hm. apply String.eqb_refl.
Qed.

(** X1: the group of a prefix holds exactly the listed names that end in
    [.jpg] and on which the pattern matches with that prefix, each paired
    with the value of its four digits, and it holds them in the order of
    the listing. *)
Theorem X1_group_members (P : string) (listing : list string) :
  (forall n f,
     In (n, f) (group_of P listing)
     <-> In f listing
         /\ endswith f ".jpg" = true
         /\ exists digits, re_match f = Some (P, digits) /\ n = int digits)
  /\ map snd (group_of P listing)
     = filter (prefix_is P) (filter (fun f => endswith f ".jpg") listing).
Proof.
  split.
  - intros n f. apply In_group_of_iff.
  - rewrite group_of_members. unfold jpg_files. apply members_names.
Qed.

Lemma digit_value (c : ascii) :
  is_digit c = true -> (0 <= Z.of_N (N_of_ascii c) - 48 <= 9)%Z.
Proof.
  unfold is_digit. rewrite andb_true_iff, !N.leb_le. lia.
Qed.

Lemma int_four_digits (digits : string) :
  String.length digits = 4 -> all_digits digits = true ->
  (0 <= int digits <= 9999)%Z.
Proof.
  intros Hlen Hd.
  destruct digits as [|d1 [|d2 [|d3 [|d4 [|d5 digits]]]]]; try discriminate.
  unfold all_digits in Hd. cbn [list_ascii_of_string forallb] in Hd.
  apply andb_true_iff in Hd as [H1 Hd]. apply andb_true_iff in Hd as [H2 Hd].
  apply andb_true_iff in Hd as [H3 Hd]. apply andb_true_iff in Hd as [H4 _].
  apply digit_value in H1, H2, H3, H4.
  unfold int. cbn [int_acc]. lia.
Qed.

(** X2: every frame number the sorter reads off a name lies between 0 and
    9999. *)
Theorem X2_frame_number_range (P : string) (listing : list string) (n : Z)
    (f : string) :
  In (n, f) (group_of P listing) -> (0 <= n <= 9999)%Z.
Proof.
  intros Hin. apply In_group_of_iff in Hin as (_ & _ & digits & Hm & ->).
  apply re_match_sound in Hm as (_ & _ & _ & _ & Hlen & Hd).
  now apply int_four_digits.
Qed.

Lemma X2_witness :
  In (7%Z, vis "a" "0007") (group_of "a" (entries out (fs full_world)))
  /\ (0 <= 7 <= 9999)%Z.
Proof.
  assert (H : In (7%Z, vis "a" "0007")
                 (group_of "a" (entries out (fs full_world))))
    by (vm_compute; tauto).
  split; [exact H|].
  exact (X2_frame_number_range "a" (entries out (fs full_world)) 7
           (vis "a" "0007") H).
Defined.

(** X3: the first group of the pattern is lazy: the prefix the sorter
    reads is no longer than any non-empty initial segment of the name that
    is followed by an underscore, four digits and
    [.jpg_vis_results.jpg]. *)
Theorem X3_prefix_is_shortest (name prefix digits : string) :
  re_match name = Some (prefix, digits) ->
  forall prefix' digits' rest,
    name
    = (prefix' ++ "_" ++ digits' ++ ".jpg_vis_results.jpg" ++ rest)%string ->
    prefix' <> EmptyString ->
    String.length digits' = 4 -> all_digits digits' = true ->
    String.length prefix <= String.length prefix'.
Proof.
  revert prefix digits; induction name as [|c name IH];
    intros prefix digits Hm; [discriminate|].
  intros prefix' digits' rest E Hne Hlen Hd.
  cbn [re_match] in Hm. destruct (is_dot c); [|discriminate].
  destruct prefix' as [|c' prefix']; [congruence|].
  cbn [append] in E. injection E as <- E.
  destruct (match_after_prefix name) as [n|] eqn:Em.
  - injection Hm as <- _. cbn. lia.
  - destruct (re_match name) as [[p n]|] eqn:Er; [|discriminate].
    injection Hm as <- _.
    destruct prefix' as [|c'' prefix'].
    + cbn [append] in E. rewrite E in Em.
      pose proof (match_after_prefix_complete digits' rest Hlen Hd) as H.
      cbn [append] in H. congruence.
    + cbn [String.length]. apply le_n_S.
      apply (IH p n eq_refl (String c'' prefix') digits' rest);
        [exact E | discriminate | exact Hlen | exact Hd].
Qed.

Lemma X3_witness :
  re_match "a_0001.jpg_vis_results.jpg_b_0002.jpg_vis_results.jpg"
  = Some ("a", "0001")
  /\ String.length "a" <= String.length "a_0001.jpg_vis_results.jpg_b".
Proof.
  assert (Hm : re_match "a_0001.jpg_vis_results.jpg_b_0002.jpg_vis_results.jpg"
               = Some ("a", "0001")) by reflexivity.
  split; [exact Hm|].
  apply (X3_prefix_is_shortest _ _ _ Hm
           "a_0001.jpg_vis_results.jpg_b" "0002" "");
    [reflexivity | discriminate | reflexivity | reflexivity].
Defined.

Lemma In_keys_fold (k : string) (files : list string) (g : group_dict) :
  In k (map fst (fold_left group_step files g))
  <-> In k (map fst g) \/ exists f, In f files /\ prefix_is k f = true.
Proof.
  revert g; induction files as [|f files IH]; intros g; cbn [fold_left].
  - split; [now left | intros [H|(f & [] & _)]; exact H].
  - rewrite IH. unfold group_step, prefix_is.
    destruct (re_match f) as [[k0 number]|] eqn:Em.
    + rewrite In_keys_append. split.
      * intros [[->|H]|(f' & Hin & HP)].
        -- right. exists f. split; [now left|].
           now rewrite Em, String.eqb_refl.
        -- now left.
        -- right. exists f'. split; [now right | exact HP].
      * intros [H|(f' & [<-|Hin] & HP)].
        -- left. now right.
        -- left. left. rewrite Em in HP. now apply String.eqb_eq in HP.
        -- right. now exists f'.
    + split.
      * intros [H|(f' & Hin & HP)]; [now left|].
        right. exists f'. split; [now right | exact HP].
      * intros [H|(f' & [<-|Hin] & HP)]; [now left | |].
        -- now rewrite Em in HP.
        -- right. now exists f'.
Qed.

(** X4: in the dictionary of groups every prefix is a key once, a prefix
    is a key exactly when the pattern matches some file with it, and no
    group is empty. *)
Theorem X4_group_keys (files : list string) :
  NoDup (map fst (build_groups files))
  /\ (forall k, In k (map fst (build_groups files))
                <-> exists f, In f files /\ prefix_is k f = true)
  /\ (forall k v, In (k, v) (build_groups files) ->
                  v <> [] /\ groups_get k (build_groups files) = Some v).
Proof.
  split; [apply NoDup_keys_build|]. split.
  - intros k. unfold build_groups. rewrite In_keys_fold. cbn [map In].
    tauto.
  - intros k v Hin.
    assert (Hk : In k (map fst (build_groups files)))
      by (apply in_map_iff; now exists (k, v)).
    split; [|apply groups_get_In; [apply NoDup_keys_build | exact Hin]].
    unfold build_groups in Hk. apply In_keys_fold in Hk as [[]|(f & Hf & HP)].
    apply In_build_groups in Hin. subst v. unfold members.
    assert (H : In f (filter (prefix_is k) files))
      by (apply filter_In; now split).
    intros E. apply map_eq_nil in E. rewrite E in H. exact H.
Qed.

(** ** Stability of the order *)

Lemma with_number_insert (n : Z) (x : frame) (l : list frame) :
  with_number n (insert_frame x l) = with_number n (x :: l).
Proof.
  unfold with_number. induction l as [|y l IH]; [reflexivity|].
  cbn [insert_frame].
  destruct (Z.leb_spec (fst x) (fst y)) as [Hxy|Hxy]; [reflexivity|].
  cbn [filter] in *. rewrite IH.
  destruct (Z.eqb_spec (fst x) n) as [Hx|Hx],
           (Z.eqb_spec (fst y) n) as [Hy|Hy]; try reflexivity.
  lia.
Qed.

(** X5: the order the files of a group are processed in is that of a
    stable ascending sort: the same frames, ascending frame numbers, and
    frames with the same number in the order of the listing. *)
Theorem X5_sort_is_stable (files : list frame) :
  Permutation (sorted_by_number files) files
  /\ StronglySorted Z.le (map fst (sorted_by_number files))
  /\ forall n, with_number n (sorted_by_number files) = with_number n files.
Proof.
  split; [apply sorted_by_number_perm|].
  split; [apply sorted_by_number_ascending|].
  intros n. induction files as [|x files IH]; [reflexivity|].
  cbn [sorted_by_number]. rewrite with_number_insert.
  unfold with_number in *. cbn [filter]. now rewrite IH.
Qed.

(** ** One frame per category *)




(** ** What the sorter prints for a group *)

Lemma lines_frames_script (P : string) (cats : list string)
    (l : list frame) :
  lines (frames_script P cats l)
  = map (fun m => moved_line (fst m) (snd m)) (combine (map snd l) cats)
    ++ (if (List.length cats <? List.length l)%nat
        then [warning_line P] else []).
Proof.
  revert cats; induction l as [|[n f] l IH]; intros cats.
  - now destruct cats.
  - destruct cats as [|c cats]; [reflexivity|].
    cbn [frames_script lines map combine fst snd app List.length].
    rewrite IH. reflexivity.
Qed.

Lemma lines_group_script (g : string * list frame) :
  lines (group_script g)
  = (if (List.length (snd g) =? 8)%nat then []
     else [("Note: Group " ++ fst g ++ " has "
            ++ str (List.length (snd g)) ++ " frames")%string])
    ++ map (fun m => ("Moved " ++ fst m ++ " to " ++ snd m)%string)
           (combine (map snd (sorted_by_number (snd g))) categories)
    ++ (if (8 <? List.length (snd g))%nat
        then [("Warning: More frames than categories for " ++ fst g
               ++ ", skipping extra frames")%string]
        else []).
Proof.
  unfold group_script.
  rewrite lines_app, lines_frames_script, sorted_by_number_length.
  f_equal. now destruct (List.length (snd g) =? 8)%nat.
Qed.

(** X7: on an ordinary input the sorter prints, group after group in the
    order in which the prefixes first appear in the listing, the line
    [Note: Group <prefix> has <n> frames] when the group does not have
    eight frames, then one line [Moved <filename> to <category>] per moved
    file, the frames in ascending order along the categories, then the
    line [Warning: More frames than categories for <prefix>, skipping
    extra frames] when the group has more than eight frames; it prints
    nothing else. *)
Theorem X7_lines_of_a_group (w : world) (source target : path) :
  regular w source target = true ->
  exists w',
    sort_golf_swing_images source target w = Ok tt w'
    /\ stdout w'
       = stdout w
         ++ flat_map
              (fun g =>
                 (if (List.length (snd g) =? 8)%nat then []
                  else [("Note: Group " ++ fst g ++ " has "
                         ++ str (List.length (snd g)) ++ " frames")%string])
                 ++ map (fun m => ("Moved " ++ fst m ++ " to " ++ snd m)%string)
                        (combine (map snd (sorted_by_number (snd g)))
                                 categories)
                 ++ (if (8 <? List.length (snd g))%nat
                     then [("Warning: More frames than categories for "
                            ++ fst g ++ ", skipping extra frames")%string]
                     else []))
              (build_groups (jpg_files (entries source (fs w)))).
Proof.
  intros Hreg.
  destruct (sorter_regular w source target Hreg) as (w' & Hrun & Hsw).
  exists w'. split; [exact Hrun|].
  rewrite (sw_stdout _ _ _ _ Hsw). f_equal.
  unfold sorter_script. rewrite lines_flat_map.
  apply flat_map_ext. intros g. apply lines_group_script.
Qed.

Lemma X7_witness :
  regular long_world out out = true
  /\ exists w',
       sort_golf_swing_images out out long_world = Ok tt w'
       /\ stdout w'
          = [ "Note: Group s has 10 frames";
              "Moved s_0003.jpg_vis_results.jpg to 0.Address";
              "Moved s_0004.jpg_vis_results.jpg to 1.Toe-up";
              "Moved s_0005.jpg_vis_results.jpg to 2.Mid-backswing";
              "Moved s_0006.jpg_vis_results.jpg to 3.Top";
              "Moved s_0007.jpg_vis_results.jpg to 4.Mid-downswing";
              "Moved s_0008.jpg_vis_results.jpg to 5.Impact";
              "Moved s_0009.jpg_vis_results.jpg to 6.Mid-follow-through";
              "Moved s_0010.jpg_vis_results.jpg to 7.Finish";
              "Warning: More frames than categories for s, skipping extra frames" ].
Proof.
  assert (Hr : regular long_world out out = true) by (vm_compute; reflexivity).
  split; [exact Hr|].
  destruct (X7_lines_of_a_group long_world out out Hr) as (w' & Hrun & Hout).
  exists w'. split; [exact Hrun|].
  rewrite Hout. vm_compute. reflexivity.
Defined.

(** ** When the listing fails *)



(** ** A regular file in the place of a category directory *)

Lemma make_category_dirs_any (target : path) (cats : list string)
    (w : world) :
  lookup (fs w) target = Some Dir ->
  exists f',
    for_each cats (make_category_dir target) w = Ok tt (mkWorld f' (stdout w))
    /\ forall p, lookup f' p = dirs_added target cats (fs w) p.
Proof.
  revert w; induction cats as [|c cats IH]; intros w Ht.
  - exists (fs w). split; [now destruct w|]. intros p. unfold dirs_added.
    cbn [existsb]. now destruct (lookup (fs w) p).
  - assert (Hstep : exists f1,
               make_category_dir target c w = Ok tt (mkWorld f1 (stdout w))
               /\ forall p, lookup f1 p
                            = match lookup (fs w) p with
                              | Some x => Some x
                              | None => if path_eqb (target ++ [c]) p
                                        then Some Dir else None
                              end).
    { unfold make_category_dir, bind, os_path_exists, exists_in.
      destruct (lookup (fs w) (target ++ [c])) as [x|] eqn:E; cbn [negb].
      - exists (fs w). split; [now destruct w|]. intros p.
        destruct (lookup (fs w) p) eqn:Ep; [reflexivity|].
        destruct (path_eqb_spec (target ++ [c]) p) as [<-|]; congruence.
      - rewrite makedirs_child by assumption. eexists. split; [reflexivity|].
        intros p. apply lookup_snoc. }
    destruct Hstep as (f1 & Hrun & Hf1).
    destruct (IH (mkWorld f1 (stdout w))) as (f' & Hrun' & Hf').
    + cbn [fs]. now rewrite Hf1, Ht.
    + exists f'. split.
      * cbn [for_each]. unfold bind. rewrite Hrun. exact Hrun'.
      * intros p. rewrite Hf'. unfold dirs_added. cbn [existsb fs].
        rewrite Hf1. destruct (lookup (fs w) p); [reflexivity|].
        now destruct (path_eqb (target ++ [c]) p).
Qed.

Lemma dirs_added_Some (target : path) (cats : list string) (f : filesystem)
    (p : path) (x : node) :
  lookup f p = Some x -> dirs_added target cats f p = Some x.
Proof. unfold dirs_added. now intros ->. Qed.

Lemma dirs_added_deeper (target : path) (cats : list string) (f : filesystem)
    (c n : string) :
  dirs_added target cats f (target ++ [c; n]) = lookup f (target ++ [c; n]).
Proof.
  unfold dirs_added. destruct (lookup f (target ++ [c; n])); [reflexivity|].
  destruct (existsb _ cats) eqn:E; [|reflexivity].
  apply existsb_exists in E as (c' & _ & E).
  destruct (path_eqb_spec (target ++ [c']) (target ++ [c; n])) as [E'|];
    [|discriminate].
  apply (f_equal (@List.length string)) in E'.
  rewrite !length_app in E'. simpl in E'. lia.
Qed.

Lemma shutil_move_parent_file (src dst : path) (d d' : N) (w : world) :
  lookup (fs w) src = Some (File d) ->
  lookup (fs w) (parent dst) = Some (File d') ->
  isdir_in (fs w) dst = false ->
  src <> dst ->
  shutil_move src dst w = Raise NotADirectoryError w.
Proof.
  intros Hs Hp Hd Hne.
  unfold shutil_move, bind, os_path_isdir, try_except, os_rename.
  cbv beta iota zeta. rewrite Hd, Hs, Hp.
  unfold move_fallback, bind, os_path_isdir, isdir_in, copy2.
  cbv beta iota zeta. rewrite Hs. cbv beta iota zeta.
  rewrite Hs, Hp, (path_eqb_neq _ _ Hne). reflexivity.
Qed.

Lemma after_moves_other (source target : path)
    (ms : list (string * string)) (f0 : filesystem) (p : path) :
  (forall f c, In (f, c) ms ->
               p <> source ++ [f] /\ p <> target ++ [c; f]) ->
  after_moves source target ms f0 p = lookup f0 p.
Proof.
  intros Hp. unfold after_moves. rewrite find_all_false.
  - assert (existsb (fun m => path_eqb (source ++ [fst m]) p) ms = false)
      as ->; [|reflexivity].
    apply not_true_is_false. intros E.
    apply existsb_exists in E as ([f c] & Hin & E). cbn [fst] in E.
    destruct (path_eqb_spec (source ++ [f]) p) as [E'|]; [|discriminate].
    destruct (Hp f c Hin) as [H _]. congruence.
  - intros [f c] Hin. cbn [fst snd]. apply path_eqb_neq.
    destruct (Hp f c Hin) as [_ H]. congruence.
Qed.

Lemma after_moves_dst (source target : path)
    (ms : list (string * string)) (f0 : filesystem) (f c : string) :
  In (f, c) ms ->
  after_moves source target ms f0 (target ++ [c; f])
  = lookup f0 (source ++ [f]).
Proof.
  intros Hin. unfold after_moves.
  destruct (find _ ms) as [m|] eqn:E.
  - now apply find_dst in E as [_ ->].
  - apply find_none with (x := (f, c)) in E; [|exact Hin].
    cbn [fst snd] in E. now rewrite path_eqb_refl in E.
Qed.

Lemma plain_spec (w : world) (source target : path) :
  plain w source target = true ->
  lookup (fs w) source = Some Dir
  /\ lookup (fs w) target = Some Dir
  /\ NoDup (entries source (fs w))
  /\ (forall f, In f (entries source (fs w)) -> grouped f = true ->
                is_file_in (fs w) (source ++ [f]) = true)
  /\ (forall f c, In f (entries source (fs w)) -> grouped f = true ->
                  In c categories ->
                  isdir_in (fs w) (target ++ [c; f]) = false).
Proof.
  unfold plain. rewrite !andb_true_iff.
  intros (((Hs & Ht) & Hn) & Hf).
  rewrite forallb_forall in Hf.
  assert (Hf' : forall f, In f (entries source (fs w)) -> grouped f = true ->
            is_file_in (fs w) (source ++ [f]) = true
            /\ forallb (fun c => negb (isdir_in (fs w) (target ++ [c; f])))
                       categories = true).
  { intros f Hin Hg. specialize (Hf f Hin). rewrite Hg in Hf.
    now apply andb_true_iff in Hf. }
  unfold isdir_in in Hs, Ht.
  split; [now destruct (lookup (fs w) source) as [[]|]|].
  split; [now destruct (lookup (fs w) target) as [[]|]|].
  split; [now apply nodupb_NoDup|].
  split.
  - intros f Hin Hg. now apply Hf'.
  - intros f c Hin Hg Hc'. apply Hf' in Hin as [_ H]; [|exact Hg].
    rewrite forallb_forall in H. now apply negb_true_iff, H.
Qed.

(** X9: when a regular file sits where a category directory belongs, the
    first move into that category raises [NotADirectoryError].  There is
    no rollback: what was printed and moved before stays, the file of the
    failed move and the files of all later moves stay in the source
    directory, and the regular file is left as it is. *)
Theorem X9_blocked_category (w : world) (source target : path)
    (s1 s2 : list action) (f c : string) (d : N) :
  plain w source target = true ->
  sorter_script (entries source (fs w)) = s1 ++ Move f c :: s2 ->
  lookup (fs w) (target ++ [c]) = Some (File d) ->
  (forall f' c', In (f', c') (moves s1) ->
                 is_file_in (fs w) (target ++ [c']) = false) ->
  exists w',
    sort_golf_swing_images source target w = Raise NotADirectoryError w'
    /\ stdout w' = stdout w ++ lines s1
    /\ (forall f' c', In (f', c') (moves s1) ->
          lookup (fs w') (target ++ [c'; f']) = lookup (fs w) (source ++ [f']))
    /\ (forall f' c', In (f', c') (moves (Move f c :: s2)) ->
          is_file_in (fs w) (source ++ [f']) = true
          /\ lookup (fs w') (source ++ [f']) = lookup (fs w) (source ++ [f']))
    /\ lookup (fs w') (target ++ [c]) = Some (File d).
Proof.
  intros Hplain Hscript Hc Hfree.
  apply plain_spec in Hplain as (Hs & Ht & Hl & Hf & Hd).
  set (listing := entries source (fs w)) in *.
  assert (Hnd : NoDup (map fst (moves (sorter_script listing))))
    by now apply NoDup_moves_sorter.
  assert (Hall : forall f' c', In (f', c') (moves (sorter_script listing)) ->
            In f' listing /\ grouped f' = true /\ In c' categories).
  { intros f' c' Hin.
    apply In_moves_sorter in Hin as (_ & _ & _ & H1 & H2 & H3). tauto. }
  rewrite Hscript, moves_app in Hnd, Hall. cbn [moves] in Hnd, Hall.
  rewrite map_app in Hnd. cbn [map fst] in Hnd.
  assert (Hnd1 : NoDup (map fst (moves s1)))
    by now apply NoDup_app_remove_r in Hnd.
  assert (Hlate : forall f' c', In (f', c') ((f, c) :: moves s2) ->
            forall f1 c1, In (f1, c1) (moves s1) -> f1 <> f').
  { intros f' c' Hin f1 c1 Hin1 ->.
    apply (in_map fst) in Hin, Hin1. cbn [fst map] in Hin, Hin1.
    revert Hnd Hin Hin1. generalize (map fst (moves s1)).
    generalize (f :: map fst (moves s2)). clear. intros l2 l1 Hnd H2 H1.
    induction l1 as [|x l1 IH]; [contradiction|].
    cbn in Hnd. inversion Hnd as [|? ? Hx Hnd']; subst.
    destruct H1 as [->|H1]; [|now apply IH].
    apply Hx. apply in_or_app. now right. }
  assert (Hin1 : forall f' c', In (f', c') (moves s1) ->
            In (f', c') (moves s1 ++ (f, c) :: moves s2))
    by (intros; apply in_or_app; now left).
  assert (Hin2 : forall f' c', In (f', c') ((f, c) :: moves s2) ->
            In (f', c') (moves s1 ++ (f, c) :: moves s2))
    by (intros; apply in_or_app; now right).
  destruct (make_category_dirs_any target categories w Ht)
    as (f1 & Hmk & Hf1).
  assert (Hfile : forall f' c',
            In (f', c') (moves s1 ++ (f, c) :: moves s2) ->
            is_file_in (fs w) (source ++ [f']) = true
            /\ lookup f1 (source ++ [f']) = lookup (fs w) (source ++ [f'])).
  { intros f' c' Hin. destruct (Hall f' c' Hin) as (Hli & Hg & _).
    assert (H := Hf f' Hli Hg). split; [exact H|].
    rewrite Hf1. unfold is_file_in in H.
    destruct (lookup (fs w) (source ++ [f'])) as [x|] eqn:E; [|discriminate].
    now apply dirs_added_Some. }
  destruct (run_script_regular source target s1 (mkWorld f1 (stdout w)))
    as (f2 & Hrun1 & Hf2); [exact Hnd1 | |].
  { intros [f' c'] Hin. pose proof (Hin1 f' c' Hin) as Hin'.
    destruct (Hfile f' c' Hin') as [H1 H2].
    destruct (Hall f' c' Hin') as (Hli & Hg & Hcat).
    repeat split; cbn [fst snd fs].
    - unfold is_file_in in *. now rewrite H2.
    - rewrite Hf1. unfold dirs_added.
      specialize (Hfree f' c' Hin). unfold is_file_in in Hfree.
      destruct (lookup (fs w) (target ++ [c'])) as [[d'|]|];
        [discriminate | reflexivity|].
      assert (existsb (fun c0 => path_eqb (target ++ [c0]) (target ++ [c']))
                      categories = true) as ->; [|reflexivity].
      apply existsb_exists. exists c'. split; [exact Hcat|].
      apply path_eqb_refl.
    - unfold isdir_in. rewrite Hf1, dirs_added_deeper. now apply Hd. }
  cbn [fs stdout] in Hrun1, Hf2.
  assert (Hkeep : forall f' c', In (f', c') ((f, c) :: moves s2) ->
            lookup f2 (source ++ [f']) = lookup (fs w) (source ++ [f'])).
  { intros f' c' Hin. rewrite Hf2, after_moves_other.
    - now apply (Hfile f' c'), Hin2.
    - intros g cg Hg. pose proof (Hlate f' c' Hin g cg Hg) as Hne.
      split; intros E.
      + apply last_component in E. congruence.
      + rewrite two_components in E. apply last_component in E. congruence. }
  assert (Hcat : In c categories)
    by (apply (Hall f c), Hin2; now left).
  assert (Hblock : lookup f2 (target ++ [c]) = Some (File d)).
  { rewrite Hf2, after_moves_other.
    - rewrite Hf1. now apply dirs_added_Some.
    - intros g cg Hg. split; intros E.
      + apply last_component in E. subst g.
        destruct (Hall c cg (Hin1 _ _ Hg)) as (_ & Hgr & _).
        unfold grouped in Hgr. rewrite (category_not_jpg c Hcat) in Hgr.
        discriminate.
      + apply (f_equal (@List.length string)) in E.
        rewrite !length_app in E. simpl in E. lia. }
  assert (Hdst : isdir_in f2 (target ++ [c; f]) = false).
  { unfold isdir_in. rewrite Hf2, after_moves_other.
    - rewrite Hf1, dirs_added_deeper.
      destruct (Hall f c (Hin2 _ _ (or_introl eq_refl))) as (Hli & Hg & _).
      now apply Hd.
    - intros g cg Hg.
      pose proof (Hlate f c (or_introl eq_refl) g cg Hg) as Hne.
      split; intros E.
      + rewrite two_components in E. apply last_component in E. congruence.
      + rewrite !two_components in E. apply last_component in E. congruence. }
  destruct (Hfile f c (Hin2 _ _ (or_introl eq_refl))) as [Hff _].
  pose proof (Hkeep f c (or_introl eq_refl)) as Hsrc.
  unfold is_file_in in Hff.
  destruct (lookup (fs w) (source ++ [f])) as [[df|]|] eqn:Ef;
    try discriminate.
  assert (Hne : source ++ [f] <> target ++ [c; f]).
  { rewrite two_components. intros E. apply snoc_inj in E as [E _].
    rewrite E in Hs. congruence. }
  exists (mkWorld f2 (stdout w ++ lines s1)).
  split; [|split; [|split; [|split]]].
  - rewrite sorter_unfold by exact Hs. fold listing. rewrite Hscript.
    unfold bind at 1. rewrite Hmk. unfold run_script in *.
    rewrite for_each_app. unfold bind at 1. rewrite Hrun1.
    cbn [for_each run_action]. unfold bind.
    rewrite (shutil_move_parent_file _ _ df d); try assumption;
      [reflexivity|].
    cbn [fs]. now rewrite two_components, parent_snoc.
  - reflexivity.
  - intros f' c' Hin. cbn [fs]. rewrite Hf2, after_moves_dst by exact Hin.
    now apply (Hfile f' c'), Hin1.
  - intros f' c' Hin. cbn [fs]. split.
    + now apply (Hfile f' c'), Hin2.
    + now apply (Hkeep f' c').
  - exact Hblock.
Qed.

Lemma X9_witness :
  plain blocked_world out out = true
  /\ sorter_script (entries out (fs blocked_world))
     = [Say (note_line "a" 3); Move (vis "a" "0000") "0.Address";
        Say (moved_line (vis "a" "0000") "0.Address")]
       ++ Move (vis "a" "0001") "1.Toe-up"
          :: [Say (moved_line (vis "a" "0001") "1.Toe-up");
              Move (vis "a" "0002") "2.Mid-backswing";
              Say (moved_line (vis "a" "0002") "2.Mid-backswing")]
  /\ lookup (fs blocked_world) (out ++ ["1.Toe-up"]) = Some (File 50)
  /\ exists w',
       sort_golf_swing_images out out blocked_world
       = Raise NotADirectoryError w'
       /\ lookup (fs w') (out ++ ["0.Address"; vis "a" "0000"])
          = Some (File 10)
       /\ lookup (fs w') (out ++ [vis "a" "0002"]) = Some (File 12).
Proof.
  assert (Hp : plain blocked_world out out = true) by (vm_compute; reflexivity).
  assert (Hs : sorter_script (entries out (fs blocked_world))
     = [Say (note_line "a" 3); Move (vis "a" "0000") "0.Address";
        Say (moved_line (vis "a" "0000") "0.Address")]
       ++ Move (vis "a" "0001") "1.Toe-up"
          :: [Say (moved_line (vis "a" "0001") "1.Toe-up");
              Move (vis "a" "0002") "2.Mid-backswing";
              Say (moved_line (vis "a" "0002") "2.Mid-backswing")])
    by (vm_compute; reflexivity).
  assert (Hc : lookup (fs blocked_world) (out ++ ["1.Toe-up"])
               = Some (File 50)) by reflexivity.
  split; [exact Hp | split; [exact Hs | split; [exact Hc|]]].
  destruct (X9_blocked_category blocked_world out out _ _ _ _ 50%N Hp Hs Hc)
    as (w' & Hrun & _ & Hdone & Hleft & _).
  - intros f' c' [E|[]]. injection E as <- <-. reflexivity.
  - exists w'. split; [exact Hrun | split].
    + apply (Hdone (vis "a" "0000") "0.Address"). now left.
    + apply (Hleft (vis "a" "0002") "2.Mid-backswing"). right. now left.
Defined.

(** ** Running the sorter again *)

Lemma child_name_spec (d p : path) (n : string) :
  child_name d p = Some n <-> p = d ++ [n].
Proof.
  revert p; induction d as [|a d IH]; intros p; cbn [child_name app].
  - destruct p as [|x [|y p]]; split; intros H; try discriminate;
      try congruence.
  - destruct p as [|b p]; [split; discriminate|].
    destruct (String.eqb_spec a b) as [->|Hab].
    + rewrite IH. split; [now intros -> | now intros [= ->]].
    + split; [discriminate | intros [= -> _]; congruence].
Qed.

Lemma entries_In (d : path) (f : filesystem) (n : string) :
  In n (entries d f) <-> exists x, In (d ++ [n], x) f.
Proof.
  induction f as [|[p x] f IH]; cbn [entries In].
  - split; [contradiction | intros [x []]].
  - destruct (child_name d p) as [m|] eqn:E.
    + apply child_name_spec in E. subst p. cbn [In]. rewrite IH. split.
      * intros [->|[y Hy]]; [exists x; now left | exists y; now right].
      * intros [y [Hy|Hy]].
        -- injection Hy as Hy _. apply snoc_inj in Hy as [_ ->]. now left.
        -- right. now exists y.
    + rewrite IH. split.
      * intros [y Hy]. exists y. now right.
      * intros [y [Hy|Hy]]; [|now exists y].
        injection Hy as -> _.
        assert (child_name d (d ++ [n]) = Some n)
          by now apply child_name_spec.
        congruence.
Qed.

Lemma assoc_None_iff (p : path) (f : filesystem) :
  assoc p f = None <-> forall x, ~ In (p, x) f.
Proof.
  induction f as [|[q y] f IH]; cbn [assoc In].
  - split; [intros _ x [] | reflexivity].
  - destruct (path_eqb_spec q p) as [->|Hqp].
    + split; [discriminate|]. intros H. exfalso. apply (H y). now left.
    + rewrite IH. split.
      * intros H x [E|Hin]; [congruence | now apply (H x)].
      * intros H x Hin. apply (H x). now right.
Qed.

(** A name is listed in a directory exactly when its path exists. *)
Lemma entries_lookup (d : path) (f : filesystem) (n : string) :
  In n (entries d f) <-> lookup f (d ++ [n]) <> None.
Proof.
  rewrite entries_In, lookup_assoc by apply snoc_not_nil. split.
  - intros [x Hin] E. now apply (proj1 (assoc_None_iff _ _) E x).
  - intros H. destruct (assoc (d ++ [n]) f) as [x|] eqn:E; [|congruence].
    exists x. now apply assoc_In.
Qed.

Lemma grouped_is_moved (listing : list string) (f : string) :
  groups_fit listing = true ->
  In f listing -> grouped f = true ->
  exists c, In (f, c) (moves (sorter_script listing)).
Proof.
  intros Hfit Hin Hg. unfold grouped in Hg.
  apply andb_true_iff in Hg as [Hj Hm].
  destruct (re_match f) as [[k digits]|] eqn:Em; [|discriminate].
  assert (Hmem : In (int digits, f) (group_of k listing))
    by (apply In_group_of_iff; repeat split; try assumption; now exists digits).
  assert (Hlen : List.length (group_of k listing) <= 8).
  { unfold groups_fit in Hfit. rewrite forallb_forall in Hfit.
    unfold group_of in *.
    destruct (groups_get k _) as [v|] eqn:E; [|contradiction].
    apply In_groups_get in E. specialize (Hfit _ E). cbn [snd] in Hfit.
    now apply Nat.leb_le. }
  assert (Hs : In (int digits, f) (sorted_by_number (group_of k listing)))
    by (eapply Permutation_in;
        [symmetry; apply sorted_by_number_perm | exact Hmem]).
  apply (In_nth _ _ no_frame) in Hs as (i & Hi & Hnth).
  rewrite sorted_by_number_length in Hi.
  exists (category i).
  replace f with (snd (nth i (sorted_by_number (group_of k listing)) no_frame))
    by now rewrite Hnth.
  apply nth_frame_moved; lia.
Qed.

(** X10: when a directory is sorted onto itself and no group has more than
    eight frames, a second run right after the first changes nothing: it
    returns without moving, creating or printing anything. *)
Theorem X10_second_run_is_idle (w : world) (d : path) :
  regular w d d = true ->
  groups_fit (entries d (fs w)) = true ->
  exists w',
    sort_golf_swing_images d d w = Ok tt w'
    /\ sort_golf_swing_images d d w' = Ok tt w'.
Proof.
  intros Hreg Hfit.
  destruct (sorter_regular w d d Hreg) as (w' & Hrun & Hsw).
  pose proof (regular_spec _ _ _ Hreg) as [Hs Ht Hl Hc Hf Hd].
  set (listing := entries d (fs w)) in *.
  exists w'. split; [exact Hrun|].
  assert (Hdir : lookup (fs w') d = Some Dir).
  { rewrite (sw_rest _ _ _ _ Hsw).
    - now apply dirs_made_keeps.
    - intros f c _. split; intros E;
        apply (f_equal (@List.length string)) in E;
        rewrite !length_app in E; simpl in E; lia. }
  assert (Hcats : forall c, In c categories ->
            lookup (fs w') (d ++ [c]) = Some Dir).
  { intros c Hcat. rewrite (sw_rest _ _ _ _ Hsw).
    - now apply dirs_made_category.
    - intros f' c' Hmv. split; intros E.
      + apply last_component in E. subst f'.
        apply In_moves_sorter in Hmv as (_ & _ & _ & _ & Hg & _).
        unfold grouped in Hg. rewrite (category_not_jpg c Hcat) in Hg.
        discriminate.
      + apply (f_equal (@List.length string)) in E.
        rewrite !length_app in E. simpl in E. lia. }
  assert (Hnone : forallb (fun f => negb (grouped f)) (entries d (fs w'))
                  = true).
  { apply forallb_forall. intros n Hn. apply negb_true_iff.
    destruct (grouped n) eqn:Hg; [exfalso | reflexivity].
    apply entries_lookup in Hn.
    destruct (in_dec string_dec n listing) as [Hin|Hout].
    - destruct (grouped_is_moved listing n Hfit Hin Hg) as [c Hmv].
      apply Hn. apply (sw_gone _ _ _ _ Hsw n c Hmv).
      intros E. apply (f_equal (@List.length string)) in E.
      rewrite !length_app in E. simpl in E. lia.
    - apply Hn. rewrite (sw_rest _ _ _ _ Hsw).
      + unfold dirs_made.
        destruct (existsb _ categories) eqn:E.
        * apply existsb_exists in E as (c & Hcat & E).
          destruct (path_eqb_spec (d ++ [c]) (d ++ [n])) as [E'|];
            [|discriminate].
          apply last_component in E'. subst c.
          unfold grouped in Hg. rewrite (category_not_jpg n Hcat) in Hg.
          discriminate.
        * destruct (lookup (fs w) (d ++ [n])) eqn:El; [|reflexivity].
          exfalso. apply Hout. apply entries_lookup. fold listing.
          congruence.
      + intros f' c' Hmv. split; intros E.
        * apply last_component in E. subst f'.
          apply In_moves_sorter in Hmv as (_ & _ & _ & Hin & _). 
          now apply Hout.
        * apply (f_equal (@List.length string)) in E.
          rewrite !length_app in E. simpl in E. lia. }
  rewrite sorter_unfold by exact Hdir.
  rewrite sorter_script_ungrouped by exact Hnone.
  unfold bind. now rewrite make_category_dirs_present.
Qed.

Lemma X10_witness :
  regular two_world out out = true
  /\ groups_fit (entries out (fs two_world)) = true
  /\ exists w',
       sort_golf_swing_images out out two_world = Ok tt w'
       /\ sort_golf_swing_images out out w' = Ok tt w'.
Proof.
  assert (Hr : regular two_world out out = true) by (vm_compute; reflexivity).
  assert (Hf : groups_fit (entries out (fs two_world)) = true)
    by (vm_compute; reflexivity).
  split; [exact Hr | split; [exact Hf|]].
  exact (X10_second_run_is_idle two_world out Hr Hf).
Defined.

(** ** The driver's loop over the images of a folder *)

Lemma process_file_count (model visualizer : Type)
    (process_image : model -> visualizer -> path -> path -> args -> M unit)
    (m : model) (v : visualizer) (a : args) (folder : path) (pbar : nat)
    (file : string) (w w' : world) (n : nat) :
  process_file model visualizer process_image m v a folder pbar file w
  = Ok n w' ->
  n = pbar + 1.
Proof.
  unfold process_file, bind, os_path_exists.
  destruct (skip_processed a && exists_in (fs w) _).
  - unfold print, ret. now intros [= <- _].
  - destruct (process_image _ _ _ _ _ _); [|discriminate].
    unfold ret. now intros [= <- _].
Qed.

Lemma process_files_app (model visualizer : Type)
    (process_image : model -> visualizer -> path -> path -> args -> M unit)
    (m : model) (v : visualizer) (a : args) (folder : path)
    (l1 l2 : list string) (pbar : nat) (w : world) :
  process_files model visualizer process_image m v a folder pbar (l1 ++ l2) w
  = match process_files model visualizer process_image m v a folder pbar l1 w
    with
    | Ok n w1 =>
        process_files model visualizer process_image m v a folder n l2 w1
    | Raise e w1 => Raise e w1
    end.
Proof.
  revert pbar w; induction l1 as [|file l1 IH]; intros pbar w;
    [reflexivity|].
  cbn [app process_files]. unfold bind.
  destruct (process_file _ _ _ _ _ _ _ _ _ w) as [n w1|e w1];
    [apply IH | reflexivity].
Qed.

(** X11: when the loop over the images of a folder returns, the progress
    count has advanced by exactly the number of images, skipped or
    processed. *)
Theorem X11_progress_counts_every_image (model visualizer : Type)
    (process_image : model -> visualizer -> path -> path -> args -> M unit)
    (m : model) (v : visualizer) (a : args) (folder : path)
    (data_files : list string) (pbar n : nat) (w w' : world) :
  process_files model visualizer process_image m v a folder pbar data_files w
  = Ok n w' ->
  n = pbar + List.length data_files.
Proof.
  revert pbar w; induction data_files as [|file files IH]; intros pbar w.
  - cbn. intros [= <- _]. lia.
  - cbn [process_files List.length]. unfold bind.
    destruct (process_file _ _ _ _ _ _ _ _ _ w) as [k w1|e w1] eqn:E;
      [|discriminate].
    apply process_file_count in E. intros H. apply IH in H. lia.
Qed.

Lemma X11_witness :
  process_files unit unit write_output tt tt plain_args ["in"; "swing"] 0
    ["a_0000.jpg"; "a_0001.jpg"] input_world
  = Ok 2 (mkWorld
            (fs input_world
             ++ [(out_path plain_args "a_0000.jpg", File 1);
                 (out_path plain_args "a_0001.jpg", File 1)])
            [])
  /\ 2 = 0 + List.length ["a_0000.jpg"; "a_0001.jpg"].
Proof.
  assert (H : process_files unit unit write_output tt tt plain_args
                ["in"; "swing"] 0 ["a_0000.jpg"; "a_0001.jpg"] input_world
              = Ok 2 (mkWorld
                        (fs input_world
                         ++ [(out_path plain_args "a_0000.jpg", File 1);
                             (out_path plain_args "a_0001.jpg", File 1)])
                        [])) by (vm_compute; reflexivity).
  split; [exact H|].
  exact (X11_progress_counts_every_image _ _ _ _ _ _ _ _ _ _ _ _ H).
Defined.

(** X12: an exception of the library on one image ends the loop: the
    images before it stay processed, the exception leaves the loop with the
    world the library left, and no later image is looked at. *)
Theorem X12_library_failure_is_fatal (model visualizer : Type)
    (process_image : model -> visualizer -> path -> path -> args -> M unit)
    (m : model) (v : visualizer) (a : args) (folder : path)
    (done rest : list string) (file : string) (pbar n : nat)
    (w w1 w2 : world) (e : exn) :
  process_files model visualizer process_image m v a folder pbar done w
  = Ok n w1 ->
  skip_processed a && exists_in (fs w1) (out_path a file) = false ->
  process_image m v (folder ++ [file]) (out_path a file) a w1 = Raise e w2 ->
  process_files model visualizer process_image m v a folder pbar
    (done ++ file :: rest) w
  = Raise e w2.
Proof.
  intros Hdone Hskip Hfail. rewrite process_files_app, Hdone.
  cbn [process_files]. unfold bind at 1.
  unfold process_file, bind, os_path_exists. fold (out_path a file).
  now rewrite Hskip, Hfail.
Qed.

Lemma X12_witness :
  process_files unit unit failing_library tt tt plain_args ["in"; "swing"] 0
    [] input_world = Ok 0 input_world
  /\ skip_processed plain_args
     && exists_in (fs input_world) (out_path plain_args "a_0000.jpg") = false
  /\ process_files unit unit failing_library tt tt plain_args ["in"; "swing"]
       0 ([] ++ "a_0000.jpg" :: ["a_0001.jpg"]) input_world
     = Raise OSError input_world.
Proof.
  assert (H0 : process_files unit unit failing_library tt tt plain_args
                 ["in"; "swing"] 0 [] input_world = Ok 0 input_world)
    by reflexivity.
  assert (H1 : skip_processed plain_args
               && exists_in (fs input_world) (out_path plain_args "a_0000.jpg")
               = false) by reflexivity.
  split; [exact H0 | split; [exact H1|]].
  exact (X12_library_failure_is_fatal unit unit failing_library tt tt
           plain_args ["in"; "swing"] [] ["a_0001.jpg"] "a_0000.jpg" 0 0
           input_world input_world input_world OSError H0 H1 eq_refl).
Defined.

(** X13: without the skip flag the loop hands every image of the folder
    to the library, in order, whether its output exists or not, and
    returns the advanced count. *)
Theorem X13_without_skip_all_processed (model visualizer : Type)
    (process_image : model -> visualizer -> path -> path -> args -> M unit)
    (m : model) (v : visualizer) (a : args) (folder : path)
    (data_files : list string) (pbar : nat) (w : world) :
  skip_processed a = false ->
  process_files model visualizer process_image m v a folder pbar data_files w
  = (for_each data_files
       (fun file =>
          process_image m v (folder ++ [file]) (out_path a file) a) ;;
     ret (pbar + List.length data_files)) w.
Proof.
  intros Hskip. revert pbar w.
  induction data_files as [|file files IH]; intros pbar w.
  - cbn. unfold bind, ret. f_equal. lia.
  - cbn [process_files for_each List.length]. unfold bind at 1 2 3.
    unfold process_file, bind, os_path_exists. fold (out_path a file).
    rewrite Hskip. cbn [andb].
    destruct (process_image _ _ _ _ _ w) as [[] w1|e w1]; [|reflexivity].
    unfold ret at 1. rewrite IH. unfold bind.
    destruct (for_each files _ w1); [|reflexivity].
    unfold ret. f_equal. lia.
Qed.

Lemma X13_witness :
  skip_processed plain_args = false
  /\ process_files unit unit failing_library tt tt plain_args ["in"; "swing"]
       0 ["a_0000.jpg"] input_world
     = Raise OSError input_world.
Proof.
  assert (H : skip_processed plain_args = false) by reflexivity.
  split; [exact H|].
  rewrite (X13_without_skip_all_processed unit unit failing_library tt tt
             plain_args ["in"; "swing"] ["a_0000.jpg"] 0 input_world H).
  reflexivity.
Defined.

(** X14: with the skip flag, a folder whose outputs all exist is passed
    over as a whole: the library is not called, the file system stays as it
    is, one skip line per image is printed in order, and the count advances
    by the number of images. *)
Theorem X14_resume_skips_everything (model visualizer : Type)
    (process_image : model -> visualizer -> path -> path -> args -> M unit)
    (m : model) (v : visualizer) (a : args) (folder : path)
    (data_files : list string) (pbar : nat) (w : world) :
  skip_processed a = true ->
  forallb (fun file => exists_in (fs w) (out_path a file)) data_files = true ->
  process_files model visualizer process_image m v a folder pbar data_files w
  = Ok (pbar + List.length data_files)
       (mkWorld (fs w) (stdout w ++ map skip_line data_files)).
Proof.
  intros Hskip. revert pbar w.
  induction data_files as [|file files IH]; intros pbar w Hall.
  - cbn. unfold ret. rewrite app_nil_r, Nat.add_0_r. now destruct w.
  - cbn [forallb] in Hall. apply andb_true_iff in Hall as [Hfile Hall].
    cbn [process_files List.length map]. unfold bind at 1.
    unfold process_file, bind, os_path_exists. fold (out_path a file).
    rewrite Hskip, Hfile. cbn [andb]. unfold print, ret.
    rewrite IH by exact Hall. cbn [fs stdout].
    rewrite <- app_assoc. cbn [app]. f_equal. lia.
Qed.

Lemma X14_witness :
  skip_processed skip_args = true
  /\ forallb (fun file => exists_in (fs skip_world) (out_path skip_args file))
             ["x.jpg"] = true
  /\ process_files unit unit failing_library tt tt skip_args ["in"; "swing"]
       3 ["x.jpg"] skip_world
     = Ok 4 (mkWorld (fs skip_world) [skip_line "x.jpg"]).
Proof.
  assert (H1 : skip_processed skip_args = true) by reflexivity.
  assert (H2 : forallb (fun file => exists_in (fs skip_world)
                                      (out_path skip_args file))
                       ["x.jpg"] = true) by reflexivity.
  split; [exact H1 | split; [exact H2|]].
  exact (X14_resume_skips_everything unit unit failing_library tt tt
           skip_args ["in"; "swing"] ["x.jpg"] 3 skip_world H1 H2).
Defined.

(** ** The driver as a whole *)



Lemma makedirs_existing (p : path) (w : world) :
  lookup (fs w) p = Some Dir ->
  exists_in (fs w) (parent p) = true ->
  os_makedirs p true w = Ok tt w.
Proof.
  intros Hp Hpar. unfold os_makedirs.
  assert (Hmk : try_except (os_mkdir p)
                  (fun e => d <- os_path_isdir p ;;
                            if true && d then ret tt else raise e) w
                = Ok tt w).
  { unfold try_except, os_mkdir, bind, check_parent, os_path_exists,
      os_path_isdir, isdir_in, exists_in, raise, ret.
    destruct (lookup (fs w) (parent p)) as [[d|]|];
      cbv beta iota; rewrite ?Hp; reflexivity. }
  destruct (rev p) as [|tail rhead] eqn:Er.
  - assert (p = []) by (rewrite <- (rev_involutive p), Er; reflexivity).
    subst p. cbn [makedirs_rev rev]. unfold bind at 1. unfold ret at 1.
    exact Hmk.
  - assert (Ep : p = rev rhead ++ [tail])
      by (rewrite <- (rev_involutive p), Er; reflexivity).
    cbn [makedirs_rev]. replace (rev (tail :: rhead)) with p
      by (rewrite Ep; reflexivity).
    unfold bind at 1.
    destruct rhead as [|h rhead'].
    + unfold ret at 1. exact Hmk.
    + unfold bind at 1, os_path_exists.
      replace (rev (h :: rhead')) with (parent p)
        by (rewrite Ep; apply parent_snoc).
      rewrite Hpar. unfold ret at 1. exact Hmk.
Qed.

Lemma filter_none {A : Type} (test : A -> bool) (l : list A) :
  forallb (fun x => negb (test x)) l = true -> filter test l = [].
Proof.
  induction l as [|x l IH]; [reflexivity|]. cbn [forallb filter].
  intros H. apply andb_true_iff in H as [Hx Hl].
  apply negb_true_iff in Hx. rewrite Hx. now apply IH.
Qed.



(** X16: only sub-folders of the base folder are scanned.  Once line 142
    has made the output folder, or found it there, and the base folder
    then has no sub-folder, whatever files it holds itself, the library is
    not called: the driver prints [0 files found] and [Reorganizing
    images...] and goes straight on to sort the output folder onto itself
    and to print [Done]. *)
Theorem X16_no_subfolder (model visualizer : Type)
    (init_model : args -> M model)
    (build_visualizer : model -> args -> M visualizer)
    (process_image : model -> visualizer -> path -> path -> args -> M unit)
    (a : args) (m : model) (v : visualizer) (w w1 w2 w3 : world) :
  init_model a w = Ok m w1 ->
  build_visualizer m a w1 = Ok v w2 ->
  os_makedirs (output_folder a) true w2 = Ok tt w3 ->
  lookup (fs w3) (base_folder a) = Some Dir ->
  forallb (fun n => negb (isdir_in (fs w3) (base_folder a ++ [n])))
          (entries (base_folder a) (fs w3)) = true ->
  extract_pose_from_imgs model visualizer init_model build_visualizer
    process_image a w
  = (sort_golf_swing_images (output_folder a) (output_folder a) ;;
     print "Done")
      (mkWorld (fs w3)
               (stdout w3 ++ ["0 files found"; "Reorganizing images..."])).
Proof.
  intros Hi Hb Ho Hbase Hnone.
  unfold extract_pose_from_imgs.
  unfold bind at 1. rewrite Hi. unfold bind at 1. rewrite Hb.
  unfold bind at 1. rewrite Ho.
  unfold bind at 1, os_listdir. rewrite Hbase.
  unfold bind at 1, get_fs. rewrite filter_none by exact Hnone.
  cbn [sort_names count_files process_folders].
  unfold bind at 1, ret at 1. unfold bind at 1, print at 1.
  unfold bind at 1, ret at 1. unfold bind at 1, print at 1.
  cbn [fs stdout]. rewrite <- app_assoc. reflexivity.
Qed.

Lemma X16_witness :
  lookup (fs first_run_world) (output_folder plain_args) = None
  /\ os_makedirs (output_folder plain_args) true first_run_world
     = Ok tt (mkWorld (fs first_run_world ++ [(out, Dir)]) [])
  /\ (let w' := final_world
                  (extract_pose_from_imgs unit unit no_model no_visualizer
                     failing_library plain_args first_run_world) in
      stdout w' = ["0 files found"; "Reorganizing images..."; "Done"]
      /\ lookup (fs w') (out ++ ["7.Finish"]) = Some Dir
      /\ lookup (fs w') ["in"; "a_0000.jpg"] = Some (File 2))
  /\ lookup (fs flat_input_world) (output_folder plain_args) = Some Dir
  /\ stdout (final_world
               (extract_pose_from_imgs unit unit no_model no_visualizer
                  failing_library plain_args flat_input_world))
     = ["0 files found"; "Reorganizing images..."; "Done"].
Proof.
  assert (Hnew : os_makedirs (output_folder plain_args) true first_run_world
                 = Ok tt (mkWorld (fs first_run_world ++ [(out, Dir)]) []))
    by reflexivity.
  assert (Hold : os_makedirs (output_folder plain_args) true flat_input_world
                 = Ok tt flat_input_world) by reflexivity.
  split; [reflexivity | split; [exact Hnew | split; [|split]]].
  - cbv zeta.
    rewrite (X16_no_subfolder unit unit no_model no_visualizer failing_library
               plain_args tt tt first_run_world first_run_world
               first_run_world _ eq_refl eq_refl Hnew eq_refl eq_refl).
    repeat split; vm_compute; reflexivity.
  - reflexivity.
  - rewrite (X16_no_subfolder unit unit no_model no_visualizer failing_library
               plain_args tt tt flat_input_world flat_input_world
               flat_input_world _ eq_refl eq_refl Hold eq_refl eq_refl).
    vm_compute. reflexivity.
Defined.

(** ** From the driver's names to the sorter's groups *)

Lemma re_match_unambiguous (prefix tail digits : string) :
  prefix <> EmptyString ->
  no_line_feed prefix = true ->
  match_after_prefix tail = Some digits ->
  (forall a b, prefix = (a ++ b)%string -> a <> EmptyString ->
               b <> EmptyString ->
               match_after_prefix (b ++ tail) = None) ->
  re_match (prefix ++ tail)%string = Some (prefix, digits).
Proof.
  intros Hne Hlf Htail Hearly.
  induction prefix as [|c prefix IH]; [congruence|].
  unfold no_line_feed in Hlf. cbn [list_ascii_of_string forallb] in Hlf.
  apply andb_true_iff in Hlf as [Hc Hlf].
  cbn [append re_match]. rewrite Hc.
  destruct prefix as [|c' prefix].
  - cbn [append]. now rewrite Htail.
  - rewrite (Hearly (String c EmptyString) (String c' prefix));
      [|reflexivity | discriminate | discriminate].
    rewrite IH; [reflexivity | discriminate | exact Hlf|].
    intros a b E Ha Hb. apply (Hearly (String c a) b);
      [now rewrite E | discriminate | exact Hb].
Qed.

Lemma no_early_match (b digits rest : string) :
  b <> EmptyString -> no_dot b = true ->
  String.length digits = 4 -> all_digits digits = true ->
  match_after_prefix (b ++ "_" ++ digits ++ rest) = None.
Proof.
  intros Hb Hdot Hlen Hd.
  destruct (match_after_prefix _) as [n|] eqn:Em; [exfalso | reflexivity].
  apply match_after_prefix_sound in Em as (rest' & E & Hn & _).
  destruct n as [|n1 [|n2 [|n3 [|n4 [|n5 n]]]]]; try discriminate.
  destruct digits as [|d1 [|d2 [|d3 [|d4 [|d5 digits]]]]]; try discriminate.
  unfold all_digits in Hd. cbn [list_ascii_of_string forallb] in Hd.
  apply andb_true_iff in Hd as [H1 Hd]. apply andb_true_iff in Hd as [H2 Hd].
  apply andb_true_iff in Hd as [H3 Hd]. apply andb_true_iff in Hd as [H4 _].
  apply (f_equal (String.get 5)) in E.
  unfold no_dot in Hdot.
  destruct b as [|b1 [|b2 [|b3 [|b4 [|b5 [|b6 b]]]]]]; [congruence | ..];
    cbn in E; injection E as E; subst;
    cbn in *; try discriminate.
  now rewrite !andb_false_r in Hdot.
Qed.

(** X17: the name the driver gives the output of an input image
    [<prefix>_<4digits>.jpg] is one the sorter groups, under that prefix
    and that frame number, whenever the prefix is non-empty and holds
    neither a dot nor a line feed (underscores and digits are fine). *)
Theorem X17_output_names_are_grouped (a : args) (prefix digits : string) :
  prefix <> EmptyString ->
  no_line_feed prefix = true ->
  no_dot prefix = true ->
  String.length digits = 4 -> all_digits digits = true ->
  endswith (prefix ++ "_" ++ digits ++ ".jpg") ".jpg" = true
  /\ basename (out_path a (prefix ++ "_" ++ digits ++ ".jpg"))
     = vis prefix digits
  /\ re_match (vis prefix digits) = Some (prefix, digits)
  /\ grouped (vis prefix digits) = true
  /\ group_of prefix [vis prefix digits] = [(int digits, vis prefix digits)].
Proof.
  intros Hne Hlf Hdot Hlen Hd.
  assert (Hm : re_match (vis prefix digits) = Some (prefix, digits)).
  { unfold vis. apply re_match_unambiguous; try assumption.
    - exact (match_after_prefix_complete digits "" Hlen Hd).
    - intros x b E Hx Hb. apply no_early_match; try assumption.
      unfold no_dot in *. rewrite E in Hdot.
      clear -Hdot. induction x as [|c x IH]; [exact Hdot|].
      cbn [append list_ascii_of_string forallb] in Hdot.
      apply andb_true_iff in Hdot as [_ Hdot]. now apply IH. }
  assert (Hj : endswith (vis prefix digits) ".jpg" = true).
  { unfold vis.
    change ".jpg_vis_results.jpg" with (".jpg_vis_results" ++ ".jpg")%string.
    rewrite 3!append_assoc3. apply endswith_append. }
  assert (Hg : grouped (vis prefix digits) = true)
    by (unfold grouped; now rewrite Hj, Hm).
  split; [rewrite 2!append_assoc3; apply endswith_append|].
  split.
  { unfold out_path. rewrite basename_snoc. unfold vis.
    rewrite <- !append_assoc3. reflexivity. }
  split; [exact Hm|]. split; [exact Hg|].
  rewrite group_of_members. unfold members, jpg_files. cbn [filter].
  rewrite Hj. cbn [filter].
  assert (HP : prefix_is prefix (vis prefix digits) = true)
    by (unfold prefix_is; rewrite Hm; apply String.eqb_refl).
  rewrite HP. cbn [map]. unfold frame_of. now rewrite Hm.
Qed.

Lemma X17_witness :
  no_dot "swing_12" = true
  /\ re_match (vis "swing_12" "0731") = Some ("swing_12", "0731")
  /\ group_of "swing_12" [vis "swing_12" "0731"]
     = [(731%Z, vis "swing_12" "0731")].
Proof.
  assert (Hdot : no_dot "swing_12" = true) by reflexivity.
  split; [exact Hdot|].
  destruct (X17_output_names_are_grouped plain_args "swing_12" "0731")
    as (_ & _ & Hm & _ & Hgrp);
    [discriminate | reflexivity | exact Hdot | reflexivity | reflexivity|].
  split; [exact Hm | exact Hgrp].
Defined.

(** ** The search path *)

Lemma environ_get_set (key value default : string)
    (env : list (string * string)) :
  environ_get key default (environ_set key value env) = value.
Proof.
  induction env as [|[k v] env IH]; cbn [environ_set environ_get].
  - now rewrite String.eqb_refl.
  - destruct (String.eqb_spec k key) as [->|Hk]; cbn [environ_get].
    + now rewrite String.eqb_refl.
    + now rewrite (proj2 (String.eqb_neq k key) Hk).
Qed.

Lemma environ_get_set_other (key key' value default : string)
    (env : list (string * string)) :
  key' <> key ->
  environ_get key' default (environ_set key value env)
  = environ_get key' default env.
Proof.
  intros Hne. induction env as [|[k v] env IH]; cbn [environ_set environ_get].
  - now rewrite (proj2 (String.eqb_neq key key')) by congruence.
  - destruct (String.eqb_spec k key) as [->|Hk]; cbn [environ_get].
    + now rewrite (proj2 (String.eqb_neq key key')) by congruence.
    + now rewrite IH.
Qed.

(** X18: [setup_env] puts the library's directory on the search path
    once, in front, and leaves the other entries in place, however often
    it runs; but each run prepends the directory to [PYTHONPATH] once
    more.  No other environment variable changes. *)
Theorem X18_setup_env_twice (project_root : string) (s : interpreter) :
  let mmpose_path := path_join project_root "mmpose" in
  In mmpose_path (sys_path (setup_env project_root s))
  /\ (sys_path (setup_env project_root s) = sys_path s
      \/ sys_path (setup_env project_root s) = mmpose_path :: sys_path s)
  /\ sys_path (setup_env project_root (setup_env project_root s))
     = sys_path (setup_env project_root s)
  /\ environ_get "PYTHONPATH" ""
       (environ (setup_env project_root (setup_env project_root s)))
     = (mmpose_path ++ pathsep ++ mmpose_path ++ pathsep
        ++ environ_get "PYTHONPATH" "" (environ s))%string
  /\ forall key default,
       key <> "PYTHONPATH" ->
       environ_get key default (environ (setup_env project_root s))
       = environ_get key default (environ s).
Proof.
  intros mmpose_path.
  assert (Hin : In mmpose_path (sys_path (setup_env project_root s))).
  { unfold setup_env. fold mmpose_path. cbn [sys_path].
    destruct (existsb (String.eqb mmpose_path) (sys_path s)) eqn:E;
      [|now left].
    apply existsb_exists in E as (x & Hx & E).
    apply String.eqb_eq in E. now subst x. }
  split; [exact Hin|]. split; [|split; [|split]].
  - unfold setup_env. fold mmpose_path. cbn [sys_path].
    destruct (existsb _ (sys_path s)); [now left | now right].
  - unfold setup_env at 1. fold mmpose_path. cbn [sys_path].
    assert (existsb (String.eqb mmpose_path)
                    (sys_path (setup_env project_root s)) = true) as ->;
      [|reflexivity].
    apply existsb_exists. exists mmpose_path.
    split; [exact Hin | apply String.eqb_refl].
  - unfold setup_env. fold mmpose_path. cbn [environ].
    now rewrite !environ_get_set.
  - intros key default Hne. unfold setup_env. cbn [environ].
    now apply environ_get_set_other.
Qed.

(** ** The order of the images *)

Lemma insert_name_perm (x : string) (l : list string) :
  Permutation (insert_name x l) (x :: l).
Proof.
  induction l as [|y l IH]; cbn [insert_name]; [reflexivity|].
  destruct (String.leb x y); [reflexivity|].
  rewrite IH. apply perm_swap.
Qed.

Lemma insert_name_sorted (x : string) (l : list string) :
  Sorted (fun a b => String.leb a b = true) l ->
  Sorted (fun a b => String.leb a b = true) (insert_name x l).
Proof.
  induction l as [|y l IH]; intros Hl; cbn [insert_name].
  - repeat constructor.
  - destruct (String.leb x y) eqn:Hxy.
    + constructor; [exact Hl | now constructor].
    + inversion Hl as [|? ? Hl' Hy]; subst.
      assert (Hyx : String.leb y x = true)
        by (destruct (String.leb_total x y); congruence).
      constructor; [now apply IH|].
      destruct l as [|z l]; cbn [insert_name].
      * now constructor.
      * destruct (String.leb x z); constructor; [exact Hyx|].
        now inversion Hy.
Qed.

(** X19: the images of a folder are taken in ascending order of their
    names, compared character by character: the list the driver loops over
    holds the listed [.jpg] names, each as often as listed, sorted. *)
Theorem X19_images_in_name_order (listing : list string) :
  Permutation (sort_names (jpg_files listing)) (jpg_files listing)
  /\ Sorted (fun a b => String.leb a b = true)
            (sort_names (jpg_files listing))
  /\ forall f, In f (sort_names (jpg_files listing))
               <-> In f listing /\ endswith f ".jpg" = true.
Proof.
  assert (Hperm : forall l, Permutation (sort_names l) l).
  { induction l as [|x l IH]; cbn [sort_names]; [reflexivity|].
    rewrite insert_name_perm. now apply perm_skip. }
  split; [apply Hperm|]. split.
  - generalize (jpg_files listing). induction l as [|x l IH];
      cbn [sort_names]; [constructor | now apply insert_name_sorted].
  - intros f. transitivity (In f (jpg_files listing)).
    + split; apply Permutation_in; [|symmetry]; apply Hperm.
    + unfold jpg_files.
      exact (filter_In (fun f0 => endswith f0 ".jpg") f listing).
Qed.
